(** * SAMDA accounts: billing ledger

    A shallow embedding of the billing application (models.py, services.py,
    forms.py and the allocation view of views.py) together with the
    properties of its numbering, totals and allocation engine.

    Conventions of the embedding.
    - A [Decimal] money value with two decimal places is the integer number
      of hundredths it denotes (125.00 is [12500]); quantities use the same
      scale.  Products carry the sum of the scales of their factors and are
      brought back to two places by [Decimal.quantize], which rounds half to
      even as Python's default decimal context does.  The 28 digit precision
      of that context is not modelled: every field is bounded by its
      [max_digits], far below it.
    - Database tables are finite maps keyed by primary key where rows are
      fetched by key, and lists of rows where they are only filtered.
    - A method that touches the database receives the tables it reads and
      returns the tables it writes next to its result.
    - The timestamps of [TimeStampedModel] and the fields that none of the
      embedded functions reads or writes (dates, notes, payment method) are
      left out.
    - Two exceptions are outcomes of the model: the IntegrityError with
      which the unique invoice number refuses the save of [issue_invoice],
      and the InvalidOperation met when an invoice view reads back totals
      that do not fit their columns. *)

From Stdlib Require Import Ascii.
From stdpp Require Import gmap strings list fin_maps pretty.

Local Open Scope Z_scope.

(** ** Python helpers *)

(** [a or b] on values whose falsy case is [None]. *)
Definition py_or {A} (a b : option A) : option A :=
  match a with
  | Some x => Some x
  | None => b
  end.

(** [sum(iterable, start)]. *)
Definition sum (xs : list Z) (start : Z) : Z := foldl Z.add start xs.

(** How a call ends: with a value, or with an exception of the named
    class. *)
Inductive Outcome (A : Type) :=
| Returned (a : A)
| Raised (exception : string).
Arguments Returned {A} a.
Arguments Raised {A} exception.

(** ** decimal.Decimal *)

Module Decimal.

(** Nearest integer to [n / d], ties to the even neighbour
    (ROUND_HALF_EVEN); [d] is positive. *)
Definition round_half_even (n d : Z) : Z :=
  let q := n `div` d in
  let r := n `mod` d in
  if decide (2 * r < d) then q
  else if decide (d < 2 * r) then q + 1
  else if Z.even q then q else q + 1.

(** [x.quantize(Decimal("0.01"))] for [x = coef * 10^-places], as a
    number of hundredths; [places] is at least 2. *)
Definition quantize (places : nat) (coef : Z) : Z :=
  round_half_even coef (10 ^ Z.of_nat (places - 2)).

End Decimal.

(** ** QuerySet helpers *)

Section queryset.
Context {A : Type}.

Fixpoint insert_desc (key : A → Z) (x : A) (l : list A) : list A :=
  match l with
  | [] => [x]
  | y :: l' => if decide (key y ≤ key x) then x :: l else y :: insert_desc key x l'
  end.

(** [order_by("-field")]: rows by decreasing key.  Rows with equal keys
    stay in table order here; the database promises no order among them. *)
Definition order_by_desc (key : A → Z) (l : list A) : list A :=
  foldr (insert_desc key) [] l.

(** [.first()] *)
Definition first (l : list A) : option A := head l.
End queryset.

(** ** core.models.TaxProfile *)

Module TaxProfile.

(** Modelled from the spec: the model class lives in core/models.py, which
    is not part of the billing application.  A profile is a dated triple of
    VAT, NHIL and GETFund rates with an activity flag; the rates carry four
    decimal places, as the seed command writes them (0.1500, 0.0250), so a
    rate is the integer number of ten-thousandths. *)
Record t := mk {
  pk : nat;
  effective_from : Z;
  is_active : bool;
  vat_rate : Z;
  nhil_rate : Z;
  getfund_rate : Z
}.

(** Number of decimal places of a rate. *)
Definition places : nat := 4.

(** [TaxProfile.objects.filter(is_active=True)
      .order_by("-effective_from").first()] *)
Definition active (objects : list t) : option t :=
  first (order_by_desc effective_from (filter (λ tp, is_active tp = true) objects)).

(** [TaxProfile.objects.get(pk=...)], as the foreign key accessor runs it. *)
Definition get (objects : list t) (id : nat) : option t :=
  head (filter (λ tp, pk tp = id) objects).

End TaxProfile.

(** ** DocumentSequence *)

Module DocumentSequence.

Record t := mk {
  prefix : string;
  next_number : N
}.

Fixpoint zeros (n : nat) : string :=
  match n with
  | O => EmptyString
  | S n' => String "0"%char (zeros n')
  end.

(** [f"{number:06d}"]: decimal digits, left padded with zeros up to a
    width of six. *)
Definition format_06d (number : N) : string :=
  let digits := pretty number in
  zeros (6 - String.length digits) +:+ digits.

(** [cls.objects.select_for_update().get_or_create(key=key, defaults=...)]:
    the row and the table that holds it. *)
Definition get_or_create (objects : gmap string t) (key : string)
    (defaults : t) : t * gmap string t :=
  match objects !! key with
  | Some seq => (seq, objects)
  | None => (defaults, <[key := defaults]> objects)
  end.

(** [DocumentSequence.next(key)]: the table after the call, the formatted
    document number, and the integer that was drawn. *)
Definition next_drawn (objects : gmap string t) (key : string)
    : gmap string t * string * N :=
  let '(seq, objects) := get_or_create objects key (mk "SAMDA/" 1) in
  let number := next_number seq in
  let seq := mk (prefix seq) (next_number seq + 1) in
  let objects := <[key := seq]> objects in
  (objects, prefix seq +:+ format_06d number, number).

Definition next (objects : gmap string t) (key : string)
    : gmap string t * string :=
  let '(objects, formatted, _) := next_drawn objects key in
  (objects, formatted).

End DocumentSequence.

(** ** InvoiceLine and PaymentAllocation rows

    Declared ahead of [Invoice], whose methods query both tables through the
    reverse accessors [self.lines] and [self.allocations]. *)

Module InvoiceLine.

Record t := mk {
  invoice : nat;
  description : string;
  qty : Z;
  unit_price : Z
}.

Definition line_total (self : t) : Z :=
  Decimal.quantize 4 (qty self * unit_price self).

End InvoiceLine.

Module PaymentAllocation.

Record t := mk {
  payment : nat;
  invoice : nat;
  amount : Z
}.

End PaymentAllocation.

(** ** Invoice *)

Module Invoice.

Inductive InvoiceType := VAT | NONVAT.
Inductive Status := DRAFT | ISSUED | PART_PAID | PAID | VOID.

#[global] Instance InvoiceType_eq_dec : EqDecision InvoiceType.
Proof. solve_decision. Defined.
#[global] Instance Status_eq_dec : EqDecision Status.
Proof. solve_decision. Defined.

Record t := mk {
  pk : nat;
  invoice_type : InvoiceType;
  status : Status;
  invoice_no : string;
  customer : nat;
  tax_profile : option nat;
  subtotal : Z;
  vat : Z;
  nhil : Z;
  getfund : Z;
  total : Z
}.

Definition with_invoice_no (no : string) (self : t) : t :=
  mk (pk self) (invoice_type self) (status self) no (customer self)
     (tax_profile self) (subtotal self) (vat self) (nhil self)
     (getfund self) (total self).

Definition with_status (st : Status) (self : t) : t :=
  mk (pk self) (invoice_type self) st (invoice_no self) (customer self)
     (tax_profile self) (subtotal self) (vat self) (nhil self)
     (getfund self) (total self).

Definition with_totals (subtotal' vat' nhil' getfund' total' : Z) (self : t) : t :=
  mk (pk self) (invoice_type self) (status self) (invoice_no self)
     (customer self) (tax_profile self) subtotal' vat' nhil' getfund' total'.

(** [self.lines.all()] *)
Definition lines (objects : list InvoiceLine.t) (self : t) : list InvoiceLine.t :=
  filter (λ ln, InvoiceLine.invoice ln = pk self) objects.

(** [self.allocations.all()] *)
Definition allocations (objects : list PaymentAllocation.t) (self : t)
    : list PaymentAllocation.t :=
  filter (λ a, PaymentAllocation.invoice a = pk self) objects.

(** [self.tax_profile]: the row the foreign key points to.  The key is
    declared [on_delete=PROTECT], so a stored key always has its row. *)
Definition tax_profile_row (profiles : list TaxProfile.t) (self : t)
    : option TaxProfile.t :=
  match tax_profile self with
  | Some id => TaxProfile.get profiles id
  | None => None
  end.

Definition assign_number_if_needed (sequences : gmap string DocumentSequence.t)
    (self : t) : gmap string DocumentSequence.t * t :=
  if decide (invoice_no self ≠ EmptyString) then (sequences, self)
  else if decide (invoice_type self = VAT) then
    let '(sequences, no) := DocumentSequence.next sequences "INV_VAT" in
    (sequences, with_invoice_no no self)
  else
    let '(sequences, no) := DocumentSequence.next sequences "INV_NONVAT" in
    (sequences, with_invoice_no no self).

(** The profile [recompute_totals] taxes a VAT invoice with. *)
Definition resolve_profile (profiles : list TaxProfile.t) (self : t)
    : option TaxProfile.t :=
  py_or (tax_profile_row profiles self) (TaxProfile.active profiles).

Definition recompute_totals (line_objects : list InvoiceLine.t)
    (profiles : list TaxProfile.t) (self : t) : t :=
  let lines := lines line_objects self in
  let subtotal := sum (InvoiceLine.line_total <$> lines) 0 in
  let '(vat, nhil, getfund) :=
    if decide (invoice_type self = VAT) then
      match resolve_profile profiles self with
      | Some tp =>
          (Decimal.quantize (2 + TaxProfile.places) (subtotal * TaxProfile.vat_rate tp),
           Decimal.quantize (2 + TaxProfile.places) (subtotal * TaxProfile.nhil_rate tp),
           Decimal.quantize (2 + TaxProfile.places) (subtotal * TaxProfile.getfund_rate tp))
      | None => (0, 0, 0)
      end
    else (0, 0, 0) in
  let total := Decimal.quantize 2 (subtotal + vat + nhil + getfund) in
  with_totals (Decimal.quantize 2 subtotal) vat nhil getfund total self.

Definition amount_paid (alloc_objects : list PaymentAllocation.t) (self : t) : Z :=
  sum (PaymentAllocation.amount <$> allocations alloc_objects self) 0.

Definition balance_due (alloc_objects : list PaymentAllocation.t) (self : t) : Z :=
  Decimal.quantize 2 (total self - amount_paid alloc_objects self).

End Invoice.

(** ** Payment and Receipt *)

Module Payment.

Record t := mk {
  pk : nat;
  payer_name : string;
  amount : Z;
  reference : string;
  customer : option nat
}.

(** [self.allocations.all()] *)
Definition allocations (objects : list PaymentAllocation.t) (self : t)
    : list PaymentAllocation.t :=
  filter (λ a, PaymentAllocation.payment a = pk self) objects.

End Payment.

Module Receipt.

Record t := mk {
  pk : option nat;
  receipt_no : string;
  payment : nat
}.

Definition assign_number_if_needed (sequences : gmap string DocumentSequence.t)
    (self : t) : gmap string DocumentSequence.t * t :=
  if decide (receipt_no self = EmptyString) then
    let '(sequences, no) := DocumentSequence.next sequences "RECEIPT" in
    (sequences, mk (pk self) no (payment self))
  else (sequences, self).

End Receipt.

(** ** core.models.AuditLog *)

Module AuditLog.

(** Modelled from the spec: the audit sink of core/models.py, which is not
    part of the billing application; a row records actor, action, object
    type, object id and message. *)
Record t := mk {
  actor : option nat;
  action : string;
  object_type : string;
  object_id : string;
  message : string
}.

End AuditLog.

(** ** The database *)

Record DB := mkDB {
  document_sequences : gmap string DocumentSequence.t;
  tax_profiles : list TaxProfile.t;
  invoices : gmap nat Invoice.t;
  invoice_lines : list InvoiceLine.t;
  payments : gmap nat Payment.t;
  payment_allocations : list PaymentAllocation.t;
  receipts : list Receipt.t;
  audit_logs : list AuditLog.t
}.

Definition set_document_sequences (s : gmap string DocumentSequence.t) (db : DB) : DB :=
  mkDB s (tax_profiles db) (invoices db) (invoice_lines db) (payments db)
       (payment_allocations db) (receipts db) (audit_logs db).

Definition set_tax_profiles (tps : list TaxProfile.t) (db : DB) : DB :=
  mkDB (document_sequences db) tps (invoices db) (invoice_lines db) (payments db)
       (payment_allocations db) (receipts db) (audit_logs db).

(** The row that [invoice.save()] writes: the invoice, under its key.  A
    save of an invoice that was fetched and whose [invoice_no] has not been
    assigned since is this write and no more: it puts the stored number
    back, which the unique constraint on the column has already admitted. *)
Definition Invoice_write (invoice : Invoice.t) (db : DB) : DB :=
  mkDB (document_sequences db) (tax_profiles db)
       (<[Invoice.pk invoice := invoice]> (invoices db))
       (invoice_lines db) (payments db) (payment_allocations db) (receipts db)
       (audit_logs db).

(** Another stored invoice carries the [invoice_no] of [invoice]. *)
Definition invoice_no_taken (db : DB) (invoice : Invoice.t) : bool :=
  bool_decide
    (map_Exists
       (λ k other, k ≠ Invoice.pk invoice
                   ∧ Invoice.invoice_no other = Invoice.invoice_no invoice)
       (invoices db)).

(** [invoice.save()] of an invoice whose number may be new: [invoice_no] is
    declared [unique=True], so the write is refused ([None], the
    IntegrityError of the database) when another row carries the number. *)
Definition Invoice_save (invoice : Invoice.t) (db : DB) : option DB :=
  if invoice_no_taken db invoice then None else Some (Invoice_write invoice db).

(** [PaymentAllocation.objects.create(...)] *)
Definition PaymentAllocation_create (a : PaymentAllocation.t) (db : DB) : DB :=
  mkDB (document_sequences db) (tax_profiles db) (invoices db) (invoice_lines db)
       (payments db) (payment_allocations db ++ [a]) (receipts db) (audit_logs db).

(** [receipt.save()] of a receipt that has no key yet: the table hands out
    the next key.  The application never deletes a receipt. *)
Definition Receipt_save (receipt : Receipt.t) (db : DB) : DB * Receipt.t :=
  let receipt :=
    Receipt.mk (Some (S (length (receipts db)))) (Receipt.receipt_no receipt)
               (Receipt.payment receipt) in
  (mkDB (document_sequences db) (tax_profiles db) (invoices db) (invoice_lines db)
        (payments db) (payment_allocations db) (receipts db ++ [receipt])
        (audit_logs db),
   receipt).

(** [AuditLog.objects.create(...)] *)
Definition AuditLog_create (entry : AuditLog.t) (db : DB) : DB :=
  mkDB (document_sequences db) (tax_profiles db) (invoices db) (invoice_lines db)
       (payments db) (payment_allocations db) (receipts db) (audit_logs db ++ [entry]).

(** [payment.receipt], the reverse side of the one-to-one key: the receipt
    row of the payment, if there is one ([hasattr(payment, "receipt")]). *)
Definition Payment_receipt (db : DB) (payment : Payment.t) : option Receipt.t :=
  head (filter (λ r, Receipt.payment r = Payment.pk payment) (receipts db)).

(** [str(pk)] of an optional key. *)
Definition str_pk (pk : option nat) : string :=
  match pk with
  | Some n => pretty n
  | None => "None"
  end.

(** ** services.py *)

Module services.

(** [issue_invoice] runs under [transaction.atomic]: when the save is
    refused the exception leaves the function and the database is the one
    the call started from, counters included. *)
Definition issue_invoice (db : DB) (invoice : Invoice.t) (actor : option nat)
    : DB * Outcome Invoice.t :=
  if decide (Invoice.status invoice ≠ Invoice.DRAFT) then (db, Returned invoice)
  else
    let '(sequences, invoice) :=
      Invoice.assign_number_if_needed (document_sequences db) invoice in
    let db1 := set_document_sequences sequences db in
    let invoice := Invoice.recompute_totals (invoice_lines db1) (tax_profiles db1) invoice in
    let invoice := Invoice.with_status Invoice.ISSUED invoice in
    match Invoice_save invoice db1 with
    | None => (db, Raised "IntegrityError")
    | Some db2 =>
        (AuditLog_create
           (AuditLog.mk actor "INVOICE_ISSUED" "Invoice"
              (pretty (Invoice.pk invoice))
              ("Issued " +:+ Invoice.invoice_no invoice)) db2,
         Returned invoice)
    end.

(** The body of the loop over [payment.allocations.select_related("invoice")]
    for the invoice object that came with one allocation row. *)
Definition settle (db : DB) (inv : Invoice.t) : DB :=
  let inv := Invoice.recompute_totals (invoice_lines db) (tax_profiles db) inv in
  let bal := Invoice.balance_due (payment_allocations db) inv in
  let inv :=
    if decide (bal ≤ 0) then Invoice.with_status Invoice.PAID inv
    else Invoice.with_status Invoice.PART_PAID inv in
  Invoice_write inv db.

(** The rows of [payment.allocations.select_related("invoice")]: the query
    runs once, so every allocation comes with the invoice row as it was
    when the loop started. *)
Definition allocations_select_related (db : DB) (payment : Payment.t)
    : list Invoice.t :=
  omap (λ a, invoices db !! PaymentAllocation.invoice a)
       (Payment.allocations (payment_allocations db) payment).

Definition create_receipt_for_payment (db : DB) (payment : Payment.t)
    (actor : option nat) : DB * Receipt.t :=
  match Payment_receipt db payment with
  | Some receipt => (db, receipt)
  | None =>
      let receipt := Receipt.mk None EmptyString (Payment.pk payment) in
      let '(sequences, receipt) :=
        Receipt.assign_number_if_needed (document_sequences db) receipt in
      let db := set_document_sequences sequences db in
      let '(db, receipt) := Receipt_save receipt db in
      let db := foldl settle db (allocations_select_related db payment) in
      let db :=
        AuditLog_create
          (AuditLog.mk actor "RECEIPT_ISSUED" "Receipt"
             (str_pk (Receipt.pk receipt))
             ("Issued " +:+ Receipt.receipt_no receipt +:+ " for payment "
              +:+ pretty (Payment.pk payment))) db in
      (db, receipt)
  end.

End services.

(** ** forms.py *)

Module AllocationForm.

(** The queryset of the [invoice] field: invoices that are ISSUED or
    PART_PAID, of the payment's customer when the payment has one. *)
Definition in_queryset (customer : option nat) (inv : Invoice.t) : bool :=
  bool_decide (Invoice.status inv = Invoice.ISSUED
               ∨ Invoice.status inv = Invoice.PART_PAID)
  && match customer with
     | Some c => bool_decide (Invoice.customer inv = c)
     | None => true
     end.

(** [DecimalField(max_digits=12, decimal_places=2, min_value=Decimal("0.01"))]
    on an amount already read as a number of hundredths. *)
Definition amount_valid (amount : Z) : bool :=
  bool_decide (1 ≤ amount) && bool_decide (amount < 10 ^ 12).

(** [form.is_valid()] and [form.cleaned_data] for posted data that names
    the invoice [invoice_pk] and the amount [amount]. *)
Definition cleaned_data (db : DB) (customer : option nat) (invoice_pk : nat)
    (amount : Z) : option (Invoice.t * Z) :=
  match invoices db !! invoice_pk with
  | Some inv =>
      if in_queryset customer inv && amount_valid amount
      then Some (inv, amount) else None
  | None => None
  end.

End AllocationForm.

(** ** views.py *)

Module views.

Inductive Request :=
| GET
| POST (invoice : nat) (amount : Z).

Inductive Message :=
| ExceedsRemainingPayment (remaining : Z)
| ExceedsInvoiceBalance (balance_due : Z)
| AllocationAdded.

Inductive Response :=
| Http404
| Redirect (message : Message)
| Render (remaining : Z).

#[global] Instance Message_eq_dec : EqDecision Message.
Proof. solve_decision. Defined.
#[global] Instance Response_eq_dec : EqDecision Response.
Proof. solve_decision. Defined.

Definition payment_allocate (db : DB) (request : Request) (pk : nat)
    : DB * Response :=
  match payments db !! pk with
  | None => (db, Http404)
  | Some payment =>
      let allocations := Payment.allocations (payment_allocations db) payment in
      let allocated_sum := sum (PaymentAllocation.amount <$> allocations) 0 in
      let remaining := Payment.amount payment - allocated_sum in
      let render := (db, Render remaining) in
      match request with
      | GET => render
      | POST invoice_pk amount =>
          match AllocationForm.cleaned_data db (Payment.customer payment)
                  invoice_pk amount with
          | None => render
          | Some (invoice, amount) =>
              if decide (amount > remaining) then
                (db, Redirect (ExceedsRemainingPayment remaining))
              else
                let invoice :=
                  Invoice.recompute_totals (invoice_lines db) (tax_profiles db) invoice in
                let db := Invoice_write invoice db in
                if decide (amount > Invoice.balance_due (payment_allocations db) invoice) then
                  (db, Redirect (ExceedsInvoiceBalance
                                   (Invoice.balance_due (payment_allocations db) invoice)))
                else
                  let db :=
                    PaymentAllocation_create
                      (PaymentAllocation.mk pk (Invoice.pk invoice) amount) db in
                  (db, Redirect AllocationAdded)
          end
      end
  end.

End views.

(** ** Drivers used by the statements *)

(** Successive calls of [DocumentSequence.next], one per key of [keys]: the
    table after the last call and, call by call, the key and the integer
    that was drawn. *)
Fixpoint next_many (objects : gmap string DocumentSequence.t) (keys : list string)
    : gmap string DocumentSequence.t * list (string * N) :=
  match keys with
  | [] => (objects, [])
  | key :: keys' =>
      let '(objects, _, number) := DocumentSequence.next_drawn objects key in
      let '(objects, drawn) := next_many objects keys' in
      (objects, (key, number) :: drawn)
  end.

(** The integer the counter of [key] hands out next. *)
Definition upcoming (objects : gmap string DocumentSequence.t) (key : string) : N :=
  match objects !! key with
  | Some seq => DocumentSequence.next_number seq
  | None => 1%N
  end.

(** The prefix the counter of [key] writes. *)
Definition prefix_of (objects : gmap string DocumentSequence.t) (key : string) : string :=
  match objects !! key with
  | Some seq => DocumentSequence.prefix seq
  | None => "SAMDA/"
  end.

(** The category key of an invoice type. *)
Definition category (ty : Invoice.InvoiceType) : string :=
  match ty with
  | Invoice.VAT => "INV_VAT"
  | Invoice.NONVAT => "INV_NONVAT"
  end.

(** Subtotal as the specification words it: the exact sum of the line
    products [qty * unit_price], rounded once to two places. *)
Definition spec_subtotal (lines : list InvoiceLine.t) : Z :=
  Decimal.quantize 4
    (sum ((λ ln, InvoiceLine.qty ln * InvoiceLine.unit_price ln) <$> lines) 0).

(** Rows are stored under their own primary key. *)
Definition db_wf (db : DB) : Prop :=
  (∀ k inv, invoices db !! k = Some inv → Invoice.pk inv = k)
  ∧ (∀ k p, payments db !! k = Some p → Payment.pk p = k).

(** No payment is allocated beyond its amount, no invoice beyond its total. *)
Definition allocation_invariant (db : DB) : Prop :=
  (∀ k p, payments db !! k = Some p →
     sum (PaymentAllocation.amount <$> Payment.allocations (payment_allocations db) p) 0
     ≤ Payment.amount p)
  ∧ (∀ k inv, invoices db !! k = Some inv →
       Invoice.amount_paid (payment_allocations db) inv ≤ Invoice.total inv).

(** Successive requests to [payment_allocate], each with the key of its
    payment: the database after the last one and the responses in order. *)
Fixpoint allocate_all (db : DB) (requests : list (nat * views.Request))
    : DB * list views.Response :=
  match requests with
  | [] => (db, [])
  | (pk, request) :: requests' =>
      let '(db, response) := views.payment_allocate db request pk in
      let '(db, responses) := allocate_all db requests' in
      (db, response :: responses)
  end.

(** The remaining, unallocated part of a payment. *)
Definition remaining_of (db : DB) (payment : Payment.t) : Z :=
  Payment.amount payment
  - sum (PaymentAllocation.amount <$> Payment.allocations (payment_allocations db) payment) 0.

(** ** Sample rows *)

(** The profile of the seed command: VAT 15%, NHIL 2.5%, GETFund 2.5%. *)
Definition seed_profile : TaxProfile.t :=
  TaxProfile.mk 1 20260101 true 1500 250 250.

(** A later profile that raises VAT to 20%. *)
Definition later_profile : TaxProfile.t :=
  TaxProfile.mk 2 20270101 true 2000 250 250.

(** Two lines of invoice 1: 2.00 x 50.00 and 1.00 x 25.00. *)
Definition sample_lines : list InvoiceLine.t :=
  [InvoiceLine.mk 1 "Consulting" 200 5000; InvoiceLine.mk 1 "Travel" 100 2500].

Definition draft_invoice : Invoice.t :=
  Invoice.mk 1 Invoice.VAT Invoice.DRAFT EmptyString 7 None 0 0 0 0 0.

Definition numbered_draft : Invoice.t :=
  Invoice.mk 1 Invoice.VAT Invoice.DRAFT "MANUAL/7" 7 None 0 0 0 0 0.

Definition sample_payment : Payment.t :=
  Payment.mk 1 "Ama Mensah" 20000 "MOMO-1" None.

Definition sample_db : DB :=
  mkDB ∅ [seed_profile] {[1%nat := draft_invoice]} sample_lines
       {[1%nat := sample_payment]} [] [] [].

(** The sample database once invoice 1 has been issued. *)
Definition issued_db : DB := (services.issue_invoice sample_db draft_invoice None).1.
Definition issued_invoice : Invoice.t :=
  match (services.issue_invoice sample_db draft_invoice None).2 with
  | Returned invoice => invoice
  | Raised _ => draft_invoice
  end.

(** The issued database once payment 1 has a receipt. *)
Definition receipted_db : DB :=
  (services.create_receipt_for_payment issued_db sample_payment None).1.

(** ** More of views.py: the invoice and receipt views *)

(** [s.replace(old, new)] for one-character [old] and [new]. *)
Fixpoint str_replace (old new : ascii) (s : string) : string :=
  match s with
  | EmptyString => EmptyString
  | String c s' => String (if decide (c = old) then new else c) (str_replace old new s')
  end.

(** [invoice.save(update_fields=["subtotal", "vat", "nhil", "getfund",
    "total", "updated_at"])]: only the listed columns of the row are
    written.  The write is not checked against [max_digits]; what does not
    fit shows when the row is read back, see [Invoice_readable]. *)
Definition Invoice_save_totals (invoice : Invoice.t) (db : DB) : DB :=
  mkDB (document_sequences db) (tax_profiles db)
       (alter (Invoice.with_totals (Invoice.subtotal invoice) (Invoice.vat invoice)
                 (Invoice.nhil invoice) (Invoice.getfund invoice)
                 (Invoice.total invoice))
              (Invoice.pk invoice) (invoices db))
       (invoice_lines db) (payments db) (payment_allocations db) (receipts db)
       (audit_logs db).

(** A column declared [max_digits=12, decimal_places=2] gives back only
    values of at most twelve digits; [x] is a number of hundredths. *)
Definition decimal_fits (x : Z) : bool := bool_decide (Z.abs x < 10 ^ 12).

(** The stored invoice can be read back: [save()] runs no validators and
    stores totals of any size, but a row with a total that does not fit its
    column raises [decimal.InvalidOperation] whenever it is fetched. *)
Definition Invoice_readable (invoice : Invoice.t) : bool :=
  decimal_fits (Invoice.subtotal invoice) && decimal_fits (Invoice.vat invoice)
  && decimal_fits (Invoice.nhil invoice) && decimal_fits (Invoice.getfund invoice)
  && decimal_fits (Invoice.total invoice).

(** [Receipt.objects.get(pk=pk)] *)
Definition Receipt_get (db : DB) (pk : nat) : option Receipt.t :=
  head (filter (λ r, Receipt.pk r = Some pk) (receipts db)).

Module document_views.
Section pdf.
(** The renderers of billing/pdf.py, which is not part of the sources. *)
Context {Bytes : Type}.
Variable invoice_pdf_bytes : Invoice.t → Bytes.
Variable receipt_pdf_bytes : Receipt.t → Bytes.

(** A redirect names the view it leads to and the key in its address; a
    server error is the answer to an exception that leaves the view. *)
Inductive Response :=
| Http404
| ServerError (exception : string)
| RedirectSuccess (to : string) (to_pk : option nat) (message : string)
| RedirectError (to : string) (to_pk : option nat) (message : string)
| RenderInvoice (invoice : Invoice.t)
| RenderReceipt (receipt : Receipt.t)
| FileResponse (content : Bytes) (filename : string).

(** [get_object_or_404(Invoice, pk=pk)]: the row, or the answer that ends
    the view. *)
Definition get_invoice_or_404 (db : DB) (pk : nat) : Response + Invoice.t :=
  match invoices db !! pk with
  | None => inl Http404
  | Some invoice =>
      if Invoice_readable invoice then inr invoice
      else inl (ServerError "InvalidOperation")
  end.

Definition invoice_detail (db : DB) (pk : nat) : DB * Response :=
  match get_invoice_or_404 db pk with
  | inl response => (db, response)
  | inr invoice =>
      let invoice := Invoice.recompute_totals (invoice_lines db) (tax_profiles db) invoice in
      let db := Invoice_save_totals invoice db in
      (db, RenderInvoice invoice)
  end.

(** [user] is [request.user] when it is authenticated. *)
Definition invoice_issue (db : DB) (user : option nat) (pk : nat) : DB * Response :=
  match get_invoice_or_404 db pk with
  | inl response => (db, response)
  | inr invoice =>
      match services.issue_invoice db invoice user with
      | (db, Returned invoice) =>
          (db, RedirectSuccess "billing:invoice_detail" (Some pk)
                 ("Issued invoice " +:+ Invoice.invoice_no invoice +:+ "."))
      | (db, Raised exception) => (db, ServerError exception)
      end
  end.

Definition invoice_pdf (db : DB) (pk : nat) : Response :=
  match get_invoice_or_404 db pk with
  | inl response => response
  | inr invoice =>
      if decide (Invoice.status invoice = Invoice.DRAFT) then
        RedirectError "billing:invoice_detail" (Some pk)
          "Issue the invoice before downloading a PDF."
      else
        FileResponse (invoice_pdf_bytes invoice)
          (str_replace "/" "-" (Invoice.invoice_no invoice) +:+ ".pdf")
  end.



Definition receipt_pdf (db : DB) (pk : nat) : Response :=
  match Receipt_get db pk with
  | None => Http404
  | Some receipt =>
      FileResponse (receipt_pdf_bytes receipt)
        (str_replace "/" "-" (Receipt.receipt_no receipt) +:+ ".pdf")
  end.

End pdf.
End document_views.

(** ** management/commands/seed_samda_defaults.py *)

Module seed_samda_defaults.

(** [date(y, m, d)] as the number yyyymmdd, which orders dates as the
    calendar does. *)
Definition date (y m d : Z) : Z := y * 10000 + m * 100 + d.

(** The key a table with an automatic primary key gives its next row. *)
Definition fresh_pk (objects : list TaxProfile.t) : nat :=
  S (foldr Nat.max 0%nat (TaxProfile.pk <$> objects)).

Definition activate (tp : TaxProfile.t) : TaxProfile.t :=
  TaxProfile.mk (TaxProfile.pk tp) (TaxProfile.effective_from tp) true
    (TaxProfile.vat_rate tp) (TaxProfile.nhil_rate tp) (TaxProfile.getfund_rate tp).

(** The first part of [Command.handle]: [TaxProfile.objects.get_or_create]
    on [effective_from], then [is_active = True] saved on a row that was
    there already.  [None] is the [MultipleObjectsReturned] that
    [get_or_create] raises when several rows carry the date.  The [name]
    column is not part of the modelled profile. *)
Definition seed_tax_profile (objects : list TaxProfile.t) : option (list TaxProfile.t) :=
  match filter (λ tp, TaxProfile.effective_from tp = date 2026 1 1) objects with
  | [] =>
      Some (objects ++ [TaxProfile.mk (fresh_pk objects) (date 2026 1 1) true 1500 250 250])
  | [tp] =>
      Some ((λ row, if decide (TaxProfile.pk row = TaxProfile.pk tp)
                    then activate row else row) <$> objects)
  | _ => None
  end.

Definition sequences : list (string * string) :=
  [("INV_VAT", "SAMDA/VAT/"); ("INV_NONVAT", "SAMDA/INV/"); ("RECEIPT", "SAMDA/RCT/")].

(** The body of the loop over [sequences]. *)
Definition seed_sequence (objects : gmap string DocumentSequence.t)
    (entry : string * string) : gmap string DocumentSequence.t :=
  let '(key, prefix) := entry in
  let '(seq, objects) :=
    DocumentSequence.get_or_create objects key (DocumentSequence.mk prefix 1) in
  if decide (DocumentSequence.prefix seq ≠ prefix) then
    <[key := DocumentSequence.mk prefix (DocumentSequence.next_number seq)]> objects
  else objects.

(** [Command.handle], without the lines it writes to standard output. *)
Definition handle (db : DB) : option DB :=
  match seed_tax_profile (tax_profiles db) with
  | None => None
  | Some profiles =>
      Some (mkDB (foldl seed_sequence (document_sequences db) sequences) profiles
              (invoices db) (invoice_lines db) (payments db)
              (payment_allocations db) (receipts db) (audit_logs db))
  end.

End seed_samda_defaults.

(** ** More drivers *)

(** Successive calls of [DocumentSequence.next], one per key of [keys]: the
    document numbers returned, in order. *)
Fixpoint next_numbers (objects : gmap string DocumentSequence.t) (keys : list string)
    : list string :=
  match keys with
  | [] => []
  | key :: keys' =>
      let '(objects, formatted) := DocumentSequence.next objects key in
      formatted :: next_numbers objects keys'
  end.





(** * Properties *)

(** ** Decimal and sum *)

Lemma round_half_even_unit n : Decimal.round_half_even n 1 = n.
Proof.
  unfold Decimal.round_half_even. rewrite Z.mod_1_r, Z.div_1_r.
  case_decide; [done | lia].
Qed.

Lemma quantize_two_places n : Decimal.quantize 2 n = n.
Proof. apply round_half_even_unit. Qed.

Lemma sum_start xs s : sum xs s = s + sum xs 0.
Proof.
  unfold sum. revert s. induction xs as [|x xs IH]; intros s; simpl; [lia|].
  rewrite (IH (s + x)), (IH (0 + x)). lia.
Qed.

Lemma sum_cons x xs : sum (x :: xs) 0 = x + sum xs 0.
Proof. unfold sum at 1. simpl. fold (sum xs (0 + x)). rewrite sum_start. lia. Qed.

Lemma sum_app xs ys : sum (xs ++ ys) 0 = sum xs 0 + sum ys 0.
Proof.
  induction xs as [|x xs IH].
  - change (sum [] 0) with 0. simpl. lia.
  - change ((x :: xs) ++ ys) with (x :: (xs ++ ys)).
    rewrite !sum_cons, IH. lia.
Qed.

(** ** The sequence allocator *)

Section sequence_allocator.
Implicit Types (objects : gmap string DocumentSequence.t) (key : string).

Lemma next_drawn_eq objects key :
  DocumentSequence.next_drawn objects key
  = (<[key := DocumentSequence.mk (prefix_of objects key) (upcoming objects key + 1)]> objects,
     prefix_of objects key +:+ DocumentSequence.format_06d (upcoming objects key),
     upcoming objects key).
Proof.
  unfold DocumentSequence.next_drawn, DocumentSequence.get_or_create,
    prefix_of, upcoming.
  destruct (objects !! key) as [seq|] eqn:Hkey; simpl; [done|].
  by rewrite insert_insert_eq.
Qed.

Lemma upcoming_after_same objects key :
  upcoming (DocumentSequence.next_drawn objects key).1.1 key
  = (upcoming objects key + 1)%N.
Proof.
  rewrite next_drawn_eq. simpl. unfold upcoming at 1.
  by rewrite lookup_insert_eq.
Qed.

Lemma upcoming_after_other objects key key' :
  key ≠ key' →
  upcoming (DocumentSequence.next_drawn objects key).1.1 key'
  = upcoming objects key'.
Proof.
  intros Hne. rewrite next_drawn_eq. simpl. unfold upcoming.
  by rewrite lookup_insert_ne.
Qed.

Lemma upcoming_after_le objects key key' :
  (upcoming objects key' ≤ upcoming (DocumentSequence.next_drawn objects key).1.1 key')%N.
Proof.
  destruct (decide (key = key')) as [->|Hne].
  - rewrite upcoming_after_same. lia.
  - by rewrite upcoming_after_other.
Qed.

Lemma next_many_cons objects key keys :
  next_many objects (key :: keys)
  = ((next_many (DocumentSequence.next_drawn objects key).1.1 keys).1,
     (key, upcoming objects key)
       :: (next_many (DocumentSequence.next_drawn objects key).1.1 keys).2).
Proof.
  simpl. rewrite next_drawn_eq. simpl.
  by destruct (next_many _ keys).
Qed.

Lemma next_many_upcoming_le keys : ∀ objects key,
  (upcoming objects key ≤ upcoming (next_many objects keys).1 key)%N.
Proof.
  induction keys as [|k keys IH]; intros objects key; [done|].
  rewrite next_many_cons. simpl.
  etrans; [apply (upcoming_after_le objects k key)|apply IH].
Qed.

(** Every integer drawn for a key is at least the one that was upcoming
    for that key when the calls started. *)
Lemma next_many_drawn_ge keys : ∀ objects i key number,
  (next_many objects keys).2 !! i = Some (key, number) →
  (upcoming objects key ≤ number)%N.
Proof.
  induction keys as [|k keys IH]; intros objects i key number; [done|].
  rewrite next_many_cons. simpl. destruct i as [|i]; simpl.
  - by intros [= -> <-].
  - intros Hi. apply IH in Hi.
    etrans; [apply (upcoming_after_le objects k key)|done].
Qed.

Lemma next_many_increasing keys : ∀ objects i j key ni nj,
  (i < j)%nat →
  (next_many objects keys).2 !! i = Some (key, ni) →
  (next_many objects keys).2 !! j = Some (key, nj) →
  (ni < nj)%N.
Proof.
  induction keys as [|k keys IH]; intros objects i j key ni nj Hij; [done|].
  rewrite next_many_cons. simpl.
  destruct j as [|j]; [lia|]. destruct i as [|i]; simpl.
  - intros [= -> <-] Hj. apply next_many_drawn_ge in Hj.
    rewrite upcoming_after_same in Hj. lia.
  - apply IH. lia.
Qed.

Lemma next_many_stored keys : ∀ objects key seq,
  objects !! key = Some seq →
  ∃ seq', (next_many objects keys).1 !! key = Some seq'
          ∧ (DocumentSequence.next_number seq ≤ DocumentSequence.next_number seq')%N.
Proof.
  induction keys as [|k keys IH]; intros objects key seq Hkey.
  - exists seq. by split.
  - rewrite next_many_cons. simpl.
    assert (∃ seq1, (DocumentSequence.next_drawn objects k).1.1 !! key = Some seq1
              ∧ (DocumentSequence.next_number seq ≤ DocumentSequence.next_number seq1)%N)
      as (seq1 & Hseq1 & Hle1).
    { rewrite next_drawn_eq. simpl. destruct (decide (k = key)) as [->|Hne].
      - rewrite lookup_insert_eq. eexists; split; [done|]. simpl.
        unfold upcoming. rewrite Hkey. lia.
      - rewrite lookup_insert_ne by done. by exists seq. }
    destruct (IH _ _ _ Hseq1) as (seq' & Hseq' & Hle').
    exists seq'. split; [done | lia].
Qed.

Lemma string_length_app (s1 s2 : string) :
  String.length (s1 +:+ s2) = (String.length s1 + String.length s2)%nat.
Proof. induction s1 as [|c s1 IH]; simpl; [done | by rewrite IH]. Qed.

Lemma format_06d_length number :
  String.length (DocumentSequence.format_06d number)
  = (6 `max` String.length (pretty number))%nat.
Proof.
  unfold DocumentSequence.format_06d. rewrite string_length_app.
  assert (∀ n, String.length (DocumentSequence.zeros n) = n) as ->.
  { induction n; simpl; congruence. }
  lia.
Qed.
End sequence_allocator.

(** C6.  For every category key, [DocumentSequence.next] creates the counter
    with [next_number = 1] when the key has none, returns the prefix followed
    by the current [next_number] zero-padded to six digits, and stores
    [next_number + 1]; over any run of calls, the integers drawn for one key
    are strictly increasing (hence pairwise distinct) and the stored
    [next_number] of a counter never decreases. *)
Theorem sequence_allocator_next (objects : gmap string DocumentSequence.t) (key : string) :
  (objects !! key = None →
     DocumentSequence.next objects key
     = (<[key := DocumentSequence.mk "SAMDA/" 2]> objects,
        "SAMDA/" +:+ DocumentSequence.format_06d 1))
  ∧ (∀ seq, objects !! key = Some seq →
       DocumentSequence.next objects key
       = (<[key := DocumentSequence.mk (DocumentSequence.prefix seq)
                     (DocumentSequence.next_number seq + 1)]> objects,
          DocumentSequence.prefix seq
            +:+ DocumentSequence.format_06d (DocumentSequence.next_number seq)))
  ∧ (∀ number,
       DocumentSequence.format_06d number
       = DocumentSequence.zeros (6 - String.length (pretty number)) +:+ pretty number
       ∧ (6 ≤ String.length (DocumentSequence.format_06d number))%nat)
  ∧ (∀ keys i j ni nj,
       (i < j)%nat →
       (next_many objects keys).2 !! i = Some (key, ni) →
       (next_many objects keys).2 !! j = Some (key, nj) →
       (ni < nj)%N)
  ∧ (∀ keys seq,
       objects !! key = Some seq →
       ∃ seq', (next_many objects keys).1 !! key = Some seq'
               ∧ (DocumentSequence.next_number seq
                  ≤ DocumentSequence.next_number seq')%N).
Proof.
  repeat split.
  - intros Hkey. unfold DocumentSequence.next. rewrite next_drawn_eq.
    unfold prefix_of, upcoming. by rewrite Hkey.
  - intros seq Hkey. unfold DocumentSequence.next. rewrite next_drawn_eq.
    unfold prefix_of, upcoming. by rewrite Hkey.
  - rewrite format_06d_length. lia.
  - intros keys i j ni nj. apply next_many_increasing.
  - intros keys seq. apply next_many_stored.
Qed.

Lemma sequence_allocator_next_witness :
  DocumentSequence.next ∅ "RECEIPT"
  = (<["RECEIPT" := DocumentSequence.mk "SAMDA/" 2]> ∅, "SAMDA/000001")
  ∧ DocumentSequence.next
      {["INV_VAT" := DocumentSequence.mk "SAMDA/VAT/" 41]} "INV_VAT"
    = (<["INV_VAT" := DocumentSequence.mk "SAMDA/VAT/" 42]>
         {["INV_VAT" := DocumentSequence.mk "SAMDA/VAT/" 41]},
       "SAMDA/VAT/000041")
  ∧ (1 < 2)%N
  ∧ ∃ seq', (next_many {["INV_VAT" := DocumentSequence.mk "SAMDA/VAT/" 41]}
               ["INV_VAT"; "RECEIPT"; "INV_VAT"]).1 !! "INV_VAT" = Some seq'
            ∧ (41 ≤ DocumentSequence.next_number seq')%N.
Proof.
  destruct (sequence_allocator_next ∅ "RECEIPT") as (Hnew & _ & _ & Hinc & _).
  destruct (sequence_allocator_next
              {["INV_VAT" := DocumentSequence.mk "SAMDA/VAT/" 41]} "INV_VAT")
    as (_ & Hold & _ & _ & Hstored).
  split; [exact (Hnew eq_refl)|].
  split; [exact (Hold _ eq_refl)|].
  split; [exact (Hinc ["RECEIPT"; "INV_VAT"; "RECEIPT"] 0%nat 2%nat 1%N 2%N
                   ltac:(lia) eq_refl eq_refl)|].
  exact (Hstored ["INV_VAT"; "RECEIPT"; "INV_VAT"] _ eq_refl).
Defined.

(** ** Issuance of invoices *)

Section issue_invoice.
Implicit Types (db : DB) (invoice : Invoice.t) (actor : option nat).

Lemma assign_number_kept sequences invoice :
  Invoice.invoice_no invoice ≠ EmptyString →
  Invoice.assign_number_if_needed sequences invoice = (sequences, invoice).
Proof. intros Hno. unfold Invoice.assign_number_if_needed. by case_decide. Qed.

Lemma assign_number_fresh sequences invoice :
  Invoice.invoice_no invoice = EmptyString →
  Invoice.assign_number_if_needed sequences invoice
  = ((DocumentSequence.next sequences (category (Invoice.invoice_type invoice))).1,
     Invoice.with_invoice_no
       (DocumentSequence.next sequences (category (Invoice.invoice_type invoice))).2
       invoice).
Proof.
  intros Hno. unfold Invoice.assign_number_if_needed.
  case_decide; [done|].
  destruct (Invoice.invoice_type invoice); simpl;
    by destruct (DocumentSequence.next sequences _).
Qed.

Lemma issue_invoice_not_draft db invoice actor :
  Invoice.status invoice ≠ Invoice.DRAFT →
  services.issue_invoice db invoice actor = (db, Returned invoice).
Proof. intros Hst. unfold services.issue_invoice. by case_decide. Qed.

(** What a call on a draft does, step by step. *)
Lemma issue_invoice_draft db invoice actor :
  Invoice.status invoice = Invoice.DRAFT →
  services.issue_invoice db invoice actor
  = let assigned := Invoice.assign_number_if_needed (document_sequences db) invoice in
    let issued :=
      Invoice.with_status Invoice.ISSUED
        (Invoice.recompute_totals (invoice_lines db) (tax_profiles db) assigned.2) in
    if invoice_no_taken db issued then (db, Raised "IntegrityError")
    else
      (AuditLog_create
         (AuditLog.mk actor "INVOICE_ISSUED" "Invoice" (pretty (Invoice.pk issued))
            ("Issued " +:+ Invoice.invoice_no issued))
         (Invoice_write issued (set_document_sequences assigned.1 db)),
       Returned issued).
Proof.
  intros Hst. unfold services.issue_invoice, Invoice_save.
  case_decide; [done|].
  destruct (Invoice.assign_number_if_needed _ _) as [sequences assigned]. simpl.
  change (invoice_no_taken (set_document_sequences sequences db))
    with (invoice_no_taken db).
  by destruct (invoice_no_taken db _).
Qed.

Lemma recompute_totals_keeps line_objects profiles invoice :
  let invoice' := Invoice.recompute_totals line_objects profiles invoice in
  Invoice.pk invoice' = Invoice.pk invoice
  ∧ Invoice.invoice_type invoice' = Invoice.invoice_type invoice
  ∧ Invoice.status invoice' = Invoice.status invoice
  ∧ Invoice.invoice_no invoice' = Invoice.invoice_no invoice
  ∧ Invoice.customer invoice' = Invoice.customer invoice
  ∧ Invoice.tax_profile invoice' = Invoice.tax_profile invoice.
Proof.
  unfold Invoice.recompute_totals.
  by destruct (if decide _ then _ else _) as [[??]?].
Qed.
End issue_invoice.

(** A call on a draft that returns: what was returned and stored. *)
Lemma issue_invoice_draft_returned (db db' : DB) (invoice issued : Invoice.t)
    (actor : option nat) :
  Invoice.status invoice = Invoice.DRAFT →
  services.issue_invoice db invoice actor = (db', Returned issued) →
  let assigned := Invoice.assign_number_if_needed (document_sequences db) invoice in
  issued = Invoice.with_status Invoice.ISSUED
             (Invoice.recompute_totals (invoice_lines db) (tax_profiles db) assigned.2)
  ∧ invoice_no_taken db issued = false
  ∧ db' = AuditLog_create
            (AuditLog.mk actor "INVOICE_ISSUED" "Invoice" (pretty (Invoice.pk issued))
               ("Issued " +:+ Invoice.invoice_no issued))
            (Invoice_write issued (set_document_sequences assigned.1 db)).
Proof.
  intros Hdraft. rewrite (issue_invoice_draft _ _ _ Hdraft). cbn zeta.
  destruct (invoice_no_taken db _) eqn:Htaken; [done|].
  intros [= <- <-]. by rewrite Htaken.
Qed.

(** A call on a draft that raises: the save was refused and nothing is
    left of the call. *)
Lemma issue_invoice_draft_raised (db : DB) (invoice : Invoice.t)
    (actor : option nat) (exception : string) :
  Invoice.status invoice = Invoice.DRAFT →
  (services.issue_invoice db invoice actor).2 = Raised exception →
  services.issue_invoice db invoice actor = (db, Raised "IntegrityError")
  ∧ invoice_no_taken db
      (Invoice.with_status Invoice.ISSUED
         (Invoice.recompute_totals (invoice_lines db) (tax_profiles db)
            (Invoice.assign_number_if_needed (document_sequences db) invoice).2))
    = true.
Proof.
  intros Hdraft. rewrite (issue_invoice_draft _ _ _ Hdraft). cbn zeta.
  by destruct (invoice_no_taken db _) eqn:Htaken.
Qed.

Lemma assign_number_pk (sequences : gmap string DocumentSequence.t)
    (invoice : Invoice.t) :
  Invoice.pk (Invoice.assign_number_if_needed sequences invoice).2 = Invoice.pk invoice.
Proof.
  unfold Invoice.assign_number_if_needed.
  repeat case_decide; try destruct (DocumentSequence.next _ _); done.
Qed.

(** C7.  On an invoice whose status is not DRAFT, [issue_invoice] returns
    the invoice and the database as they were: number, totals and status
    are unchanged and no sequence counter is touched.  In particular a call
    that follows a first call that returned changes nothing; and when that
    first call was made on a draft, the invoice it returned is ISSUED and is
    the stored one. *)
Theorem issue_invoice_noop_unless_draft (db : DB) (invoice : Invoice.t)
    (actor actor' : option nat) :
  (Invoice.status invoice ≠ Invoice.DRAFT →
     services.issue_invoice db invoice actor = (db, Returned invoice))
  ∧ ∀ db1 issued,
      services.issue_invoice db invoice actor = (db1, Returned issued) →
      services.issue_invoice db1 issued actor' = (db1, Returned issued)
      ∧ (Invoice.status invoice = Invoice.DRAFT →
           Invoice.status issued = Invoice.ISSUED
           ∧ invoices db1 !! Invoice.pk invoice = Some issued).
Proof.
  split; [apply issue_invoice_not_draft|].
  intros db1 issued Hfirst.
  destruct (decide (Invoice.status invoice = Invoice.DRAFT)) as [Hdraft|Hother].
  - destruct (issue_invoice_draft_returned _ _ _ _ _ Hdraft Hfirst) as (Hissued & _ & ->).
    cbn zeta in Hissued.
    assert (Invoice.status issued = Invoice.ISSUED) as Hst by by rewrite Hissued.
    assert (Invoice.pk issued = Invoice.pk invoice) as Hpk.
    { rewrite Hissued. simpl.
      match goal with |- context [Invoice.recompute_totals ?l ?p ?i] =>
        pose proof (recompute_totals_keeps l p i) as (-> & _) end.
      apply assign_number_pk. }
    split.
    + apply issue_invoice_not_draft. by rewrite Hst.
    + intros _. split; [done|]. simpl. rewrite <-Hpk. apply lookup_insert_eq.
  - rewrite (issue_invoice_not_draft _ _ _ Hother) in Hfirst.
    injection Hfirst as <- <-.
    split; [by apply issue_invoice_not_draft | done].
Qed.

(** C10.  On a DRAFT invoice whose [invoice_no] is already a non-empty
    string, [issue_invoice] keeps that number and leaves every sequence
    counter as it was; when [invoice_no] is empty and the call returns, the
    number is the one [DocumentSequence.next] hands out for the category of
    the invoice type (INV_VAT for VAT, INV_NONVAT otherwise), and the
    counters are the ones that call leaves behind.  A call that raises
    leaves the database, counters included, as it was. *)
Theorem issue_invoice_number_if_needed (db : DB) (invoice : Invoice.t)
    (actor : option nat) :
  Invoice.status invoice = Invoice.DRAFT →
  (Invoice.invoice_no invoice ≠ EmptyString →
     document_sequences (services.issue_invoice db invoice actor).1
     = document_sequences db
     ∧ ∀ issued, (services.issue_invoice db invoice actor).2 = Returned issued →
         Invoice.invoice_no issued = Invoice.invoice_no invoice)
  ∧ (Invoice.invoice_no invoice = EmptyString →
       ∀ db' issued,
         services.issue_invoice db invoice actor = (db', Returned issued) →
         Invoice.invoice_no issued
         = (DocumentSequence.next (document_sequences db)
              (category (Invoice.invoice_type invoice))).2
         ∧ document_sequences db'
           = (DocumentSequence.next (document_sequences db)
                (category (Invoice.invoice_type invoice))).1)
  ∧ (∀ exception,
       (services.issue_invoice db invoice actor).2 = Raised exception →
       (services.issue_invoice db invoice actor).1 = db).
Proof.
  intros Hdraft. split; [|split].
  - intros Hno.
    destruct (services.issue_invoice db invoice actor) as [db' [issued|e]] eqn:Hcall.
    + destruct (issue_invoice_draft_returned _ _ _ _ _ Hdraft Hcall) as (-> & _ & ->).
      rewrite (assign_number_kept _ _ Hno). simpl. split; [done|].
      intros issued [= <-]. simpl.
      apply (recompute_totals_keeps (invoice_lines db) (tax_profiles db) invoice).
    + destruct (issue_invoice_draft_raised db invoice actor e Hdraft) as [Hraised _].
      { by rewrite Hcall. }
      rewrite Hcall in Hraised. injection Hraised as -> _. by split.
  - intros Hno db' issued Hcall.
    destruct (issue_invoice_draft_returned _ _ _ _ _ Hdraft Hcall) as (-> & _ & ->).
    rewrite (assign_number_fresh _ _ Hno). simpl. split; [|done].
    match goal with |- context [Invoice.recompute_totals ?l ?p ?i] =>
      pose proof (recompute_totals_keeps l p i) as (_ & _ & _ & Hkept & _) end.
    by rewrite Hkept.
  - intros e Hraised.
    destruct (issue_invoice_draft_raised db invoice actor e Hdraft Hraised) as [-> _].
    done.
Qed.

(** ** Receipts *)

Lemma settle_receipts (db : DB) (inv : Invoice.t) :
  receipts (services.settle db inv) = receipts db
  ∧ document_sequences (services.settle db inv) = document_sequences db.
Proof. unfold services.settle. by case_decide. Qed.

Lemma settle_all_receipts (invs : list Invoice.t) : ∀ db : DB,
  receipts (foldl services.settle db invs) = receipts db
  ∧ document_sequences (foldl services.settle db invs) = document_sequences db.
Proof.
  induction invs as [|inv invs IH]; intros db; [done|].
  simpl. destruct (IH (services.settle db inv)) as [-> ->].
  apply settle_receipts.
Qed.

Lemma create_receipt_existing (db : DB) (payment : Payment.t) (actor : option nat)
    (receipt : Receipt.t) :
  Payment_receipt db payment = Some receipt →
  services.create_receipt_for_payment db payment actor = (db, receipt).
Proof. intros Hr. unfold services.create_receipt_for_payment. by rewrite Hr. Qed.

(** After a call that created a receipt, that receipt is the one the
    payment's accessor finds, and it carries the RECEIPT number drawn. *)
Lemma create_receipt_fresh (db : DB) (payment : Payment.t) (actor : option nat) :
  Payment_receipt db payment = None →
  let result := services.create_receipt_for_payment db payment actor in
  Payment_receipt result.1 payment = Some result.2
  ∧ Receipt.receipt_no result.2
    = (DocumentSequence.next (document_sequences db) "RECEIPT").2
  ∧ document_sequences result.1
    = (DocumentSequence.next (document_sequences db) "RECEIPT").1.
Proof.
  intros Hnone. unfold services.create_receipt_for_payment. rewrite Hnone.
  unfold Receipt.assign_number_if_needed. simpl.
  destruct (DocumentSequence.next _ _) as [sequences no]. simpl.
  match goal with |- context [foldl services.settle ?d ?l] =>
    destruct (settle_all_receipts l d) as [Hrs Hseq] end.
  unfold Payment_receipt in *. simpl. rewrite Hrs, Hseq. simpl.
  split; [|done].
  rewrite filter_app.
  destruct (filter _ (receipts db)) as [|r rs] eqn:Hfilter; [|done].
  simpl. rewrite filter_cons_True by done. done.
Qed.

(** C8.  For a payment that already has a receipt,
    [create_receipt_for_payment] returns that receipt and leaves the
    database, hence the RECEIPT counter, as it was; a call that follows a
    first call returns the receipt of the first call and changes nothing. *)
Theorem create_receipt_for_payment_idempotent (db : DB) (payment : Payment.t)
    (actor actor' : option nat) :
  (∀ receipt, Payment_receipt db payment = Some receipt →
     services.create_receipt_for_payment db payment actor = (db, receipt))
  ∧ services.create_receipt_for_payment
      (services.create_receipt_for_payment db payment actor).1 payment actor'
    = services.create_receipt_for_payment db payment actor.
Proof.
  split; [intros receipt; apply create_receipt_existing|].
  destruct (Payment_receipt db payment) as [receipt|] eqn:Hr.
  - rewrite (create_receipt_existing _ _ _ _ Hr). simpl.
    by apply create_receipt_existing.
  - destruct (create_receipt_fresh db payment actor Hr) as (Hfound & _).
    destruct (services.create_receipt_for_payment db payment actor) as [db1 r1].
    by apply create_receipt_existing.
Qed.

Lemma issue_invoice_noop_unless_draft_witness :
  services.issue_invoice issued_db issued_invoice None
  = (issued_db, Returned issued_invoice)
  ∧ Invoice.status issued_invoice = Invoice.ISSUED.
Proof.
  destruct (issue_invoice_noop_unless_draft issued_db issued_invoice None None)
    as (Hnoop & _).
  destruct (issue_invoice_noop_unless_draft sample_db draft_invoice None None)
    as (_ & Hissued).
  split.
  - apply Hnoop. vm_compute. discriminate.
  - apply (Hissued issued_db issued_invoice); reflexivity.
Defined.

Lemma issue_invoice_number_if_needed_witness :
  (∀ issued, (services.issue_invoice sample_db numbered_draft None).2 = Returned issued →
     Invoice.invoice_no issued = "MANUAL/7")
  ∧ Invoice.invoice_no issued_invoice = (DocumentSequence.next ∅ "INV_VAT").2.
Proof.
  destruct (issue_invoice_number_if_needed sample_db numbered_draft None eq_refl)
    as (Hkept & _).
  destruct (issue_invoice_number_if_needed sample_db draft_invoice None eq_refl)
    as (_ & Hdrawn & _).
  split.
  - apply Hkept. discriminate.
  - apply (Hdrawn eq_refl issued_db issued_invoice). reflexivity.
Defined.

Lemma create_receipt_for_payment_idempotent_witness :
  services.create_receipt_for_payment receipted_db sample_payment None
  = (receipted_db, Receipt.mk (Some 1%nat) "SAMDA/000001" 1).
Proof.
  destruct (create_receipt_for_payment_idempotent receipted_db sample_payment None None)
    as (Hexisting & _).
  apply Hexisting. vm_compute. reflexivity.
Defined.

(** ** Selection of the tax profile *)

Section order_by.
Context {A : Type} (key : A → Z).

Lemma insert_desc_head (x : A) (l : list A) :
  head (insert_desc key x l)
  = match head l with
    | Some y => if decide (key y ≤ key x) then Some x else Some y
    | None => Some x
    end.
Proof. destruct l as [|y l]; simpl; [done|]. by case_decide. Qed.

(** The first row of the ordered rows is a row of the table whose key no
    other row exceeds. *)
Lemma order_by_desc_first (l : list A) (x : A) :
  first (order_by_desc key l) = Some x →
  x ∈ l ∧ ∀ y, y ∈ l → key y ≤ key x.
Proof.
  unfold first. revert x. induction l as [|a l IH]; intros x; [done|].
  change (order_by_desc key (a :: l)) with (insert_desc key a (order_by_desc key l)).
  rewrite insert_desc_head.
  destruct (head (order_by_desc key l)) as [m|] eqn:Hm.
  - destruct (IH m eq_refl) as [Hin Hmax]. case_decide; intros [= <-].
    + split; [left|]. intros y [->|Hy]%elem_of_cons; [lia|].
      specialize (Hmax y Hy). lia.
    + split; [by right|]. intros y [->|Hy]%elem_of_cons; [lia | by apply Hmax].
  - intros [= <-]. split; [left|].
    assert (l = []) as ->.
    { destruct l as [|b l]; [done|]. exfalso.
      change (order_by_desc key (b :: l)) with (insert_desc key b (order_by_desc key l)) in Hm.
      rewrite insert_desc_head in Hm. by repeat case_match. }
    by intros y ->%list_elem_of_singleton.
Qed.

Lemma order_by_desc_first_is_Some (l : list A) :
  l ≠ [] → is_Some (first (order_by_desc key l)).
Proof.
  destruct l as [|a l]; [done|]. intros _. unfold first.
  change (order_by_desc key (a :: l)) with (insert_desc key a (order_by_desc key l)).
  rewrite insert_desc_head. by repeat case_match.
Qed.
End order_by.

Lemma active_profile_spec (profiles : list TaxProfile.t) (tp : TaxProfile.t) :
  TaxProfile.active profiles = Some tp →
  tp ∈ profiles ∧ TaxProfile.is_active tp = true
  ∧ ∀ tp', tp' ∈ profiles → TaxProfile.is_active tp' = true →
      TaxProfile.effective_from tp' ≤ TaxProfile.effective_from tp.
Proof.
  intros [Hin Hmax]%order_by_desc_first.
  apply list_elem_of_filter in Hin as [Hact Hin].
  repeat split; [done..|].
  intros tp' Hin' Hact'. apply Hmax. by apply list_elem_of_filter.
Qed.

Lemma active_profile_none (profiles : list TaxProfile.t) :
  (∀ tp, tp ∈ profiles → TaxProfile.is_active tp = false) →
  TaxProfile.active profiles = None.
Proof.
  intros Hnone. unfold TaxProfile.active.
  destruct (first _) as [tp|] eqn:Hfirst; [|done].
  apply order_by_desc_first in Hfirst as [Hin _].
  apply list_elem_of_filter in Hin as [Hact Hin].
  rewrite (Hnone tp Hin) in Hact. done.
Qed.

Lemma active_profile_some (profiles : list TaxProfile.t) (tp0 : TaxProfile.t) :
  tp0 ∈ profiles → TaxProfile.is_active tp0 = true →
  is_Some (TaxProfile.active profiles).
Proof.
  intros Hin Hact. apply order_by_desc_first_is_Some.
  intros Hnil.
  assert (tp0 ∈ filter (λ tp, TaxProfile.is_active tp = true) profiles) as Hin'
    by by apply list_elem_of_filter.
  rewrite Hnil in Hin'. by apply elem_of_nil in Hin'.
Qed.

(** The tax components [recompute_totals] stores, by the profile it
    resolves. *)
Lemma recompute_totals_taxes (line_objects : list InvoiceLine.t)
    (profiles : list TaxProfile.t) (self : Invoice.t) :
  Invoice.invoice_type self = Invoice.VAT →
  let self' := Invoice.recompute_totals line_objects profiles self in
  let subtotal := sum (InvoiceLine.line_total <$> Invoice.lines line_objects self) 0 in
  match Invoice.resolve_profile profiles self with
  | Some tp =>
      Invoice.vat self' = Decimal.quantize 6 (subtotal * TaxProfile.vat_rate tp)
      ∧ Invoice.nhil self' = Decimal.quantize 6 (subtotal * TaxProfile.nhil_rate tp)
      ∧ Invoice.getfund self' = Decimal.quantize 6 (subtotal * TaxProfile.getfund_rate tp)
  | None =>
      Invoice.vat self' = 0 ∧ Invoice.nhil self' = 0 ∧ Invoice.getfund self' = 0
  end.
Proof.
  intros Hvat. unfold Invoice.recompute_totals. rewrite decide_True by done.
  by destruct (Invoice.resolve_profile profiles self).
Qed.

(** C9.  For a VAT invoice without a frozen profile: when no profile is
    active, [recompute_totals] returns with vat, nhil and getfund all 0.00;
    when some profile is active, the profile it taxes with is an active one
    whose [effective_from] no other active profile exceeds. *)
Theorem recompute_totals_active_profile (line_objects : list InvoiceLine.t)
    (profiles : list TaxProfile.t) (self : Invoice.t) :
  Invoice.invoice_type self = Invoice.VAT →
  Invoice.tax_profile self = None →
  let self' := Invoice.recompute_totals line_objects profiles self in
  let subtotal := sum (InvoiceLine.line_total <$> Invoice.lines line_objects self) 0 in
  ((∀ tp, tp ∈ profiles → TaxProfile.is_active tp = false) →
     Invoice.vat self' = 0 ∧ Invoice.nhil self' = 0 ∧ Invoice.getfund self' = 0)
  ∧ (∀ tp0, tp0 ∈ profiles → TaxProfile.is_active tp0 = true →
       ∃ tp, Invoice.resolve_profile profiles self = Some tp
         ∧ tp ∈ profiles ∧ TaxProfile.is_active tp = true
         ∧ (∀ tp', tp' ∈ profiles → TaxProfile.is_active tp' = true →
              TaxProfile.effective_from tp' ≤ TaxProfile.effective_from tp)
         ∧ Invoice.vat self' = Decimal.quantize 6 (subtotal * TaxProfile.vat_rate tp)
         ∧ Invoice.nhil self' = Decimal.quantize 6 (subtotal * TaxProfile.nhil_rate tp)
         ∧ Invoice.getfund self'
           = Decimal.quantize 6 (subtotal * TaxProfile.getfund_rate tp)).
Proof.
  intros Hvat Hnofrozen self' subtotal.
  pose proof (recompute_totals_taxes line_objects profiles self Hvat) as Htaxes.
  cbn zeta in Htaxes. fold self' subtotal in Htaxes.
  assert (Invoice.resolve_profile profiles self = TaxProfile.active profiles) as Hres.
  { unfold Invoice.resolve_profile, Invoice.tax_profile_row. by rewrite Hnofrozen. }
  rewrite Hres in *. split.
  - intros Hnone. by rewrite (active_profile_none _ Hnone) in Htaxes.
  - intros tp0 Hin Hact.
    destruct (active_profile_some _ _ Hin Hact) as [tp Htp].
    rewrite Htp in Htaxes. exists tp.
    destruct (active_profile_spec _ _ Htp) as (? & ? & ?).
    destruct Htaxes as (? & ? & ?). by repeat split.
Qed.

Lemma recompute_totals_active_profile_witness :
  (Invoice.vat (Invoice.recompute_totals sample_lines [] draft_invoice) = 0
   ∧ Invoice.nhil (Invoice.recompute_totals sample_lines [] draft_invoice) = 0
   ∧ Invoice.getfund (Invoice.recompute_totals sample_lines [] draft_invoice) = 0)
  ∧ ∃ tp, Invoice.resolve_profile [seed_profile; later_profile] draft_invoice = Some tp
      ∧ Invoice.vat (Invoice.recompute_totals sample_lines
                       [seed_profile; later_profile] draft_invoice)
        = Decimal.quantize 6 (12500 * TaxProfile.vat_rate tp).
Proof.
  destruct (recompute_totals_active_profile sample_lines [] draft_invoice
              eq_refl eq_refl) as (Hnone & _).
  destruct (recompute_totals_active_profile sample_lines [seed_profile; later_profile]
              draft_invoice eq_refl eq_refl) as (_ & Hsome).
  split.
  - apply Hnone. intros tp Hin. by apply elem_of_nil in Hin.
  - destruct (Hsome seed_profile ltac:(left) eq_refl)
      as (tp & Hres & _ & _ & _ & Hv & _).
    exists tp. split; [exact Hres | exact Hv].
Defined.

(** ** Subtotal *)

Lemma line_total_rounds (ln : InvoiceLine.t) :
  InvoiceLine.line_total ln
  = Decimal.round_half_even (InvoiceLine.qty ln * InvoiceLine.unit_price ln) 100.
Proof. done. Qed.

(** C3 (as the code has it).  [recompute_totals] stores as subtotal the sum
    of the line totals, each line product [qty * unit_price] being rounded
    half-even to two places on its own before the summation; the closing
    quantize leaves that sum as it is. *)
Theorem recompute_totals_subtotal_sums_rounded_lines
    (line_objects : list InvoiceLine.t) (profiles : list TaxProfile.t)
    (self : Invoice.t) :
  Invoice.subtotal (Invoice.recompute_totals line_objects profiles self)
  = sum ((λ ln, Decimal.round_half_even
                  (InvoiceLine.qty ln * InvoiceLine.unit_price ln) 100)
           <$> Invoice.lines line_objects self) 0.
Proof.
  unfold Invoice.recompute_totals.
  destruct (if decide _ then _ else _) as [[??]?]. simpl.
  by rewrite quantize_two_places.
Qed.

(** C3 as stated fails: two lines of 0.30 x 0.01 each round to 0.00, so the
    code stores 0.00, while their exact sum 0.0060 rounds to 0.01. *)
Lemma subtotal_not_rounded_once :
  let lines := [InvoiceLine.mk 1 "a" 30 1; InvoiceLine.mk 1 "b" 30 1] in
  Invoice.subtotal (Invoice.recompute_totals lines [] draft_invoice) = 0
  ∧ spec_subtotal (Invoice.lines lines draft_invoice) = 1
  ∧ Invoice.subtotal (Invoice.recompute_totals lines [] draft_invoice)
    ≠ spec_subtotal (Invoice.lines lines draft_invoice).
Proof. vm_compute. repeat split; discriminate. Qed.

(** ** The allocation view *)

Section payment_allocate.
Implicit Types (db : DB) (request : views.Request) (pk : nat).

Lemma cleaned_data_Some db customer invoice_pk amount invoice amount' :
  AllocationForm.cleaned_data db customer invoice_pk amount = Some (invoice, amount') →
  invoices db !! invoice_pk = Some invoice ∧ amount' = amount
  ∧ (Invoice.status invoice = Invoice.ISSUED ∨ Invoice.status invoice = Invoice.PART_PAID)
  ∧ 1 ≤ amount.
Proof.
  unfold AllocationForm.cleaned_data.
  destruct (invoices db !! invoice_pk) as [inv|]; [|done].
  destruct (AllocationForm.in_queryset customer inv && _) eqn:Hvalid; [|done].
  intros [= -> ->].
  apply andb_true_iff in Hvalid as [Hqs Hamount].
  apply andb_true_iff in Hqs as [Hst%bool_decide_eq_true _].
  apply andb_true_iff in Hamount as [Hmin%bool_decide_eq_true _].
  done.
Qed.

(** An accepted request: what was checked and what was written. *)
Lemma payment_allocate_added db request pk db' :
  views.payment_allocate db request pk = (db', views.Redirect views.AllocationAdded) →
  ∃ payment invoice_pk invoice amount,
    request = views.POST invoice_pk amount
    ∧ payments db !! pk = Some payment
    ∧ invoices db !! invoice_pk = Some invoice
    ∧ (Invoice.status invoice = Invoice.ISSUED
       ∨ Invoice.status invoice = Invoice.PART_PAID)
    ∧ 1 ≤ amount
    ∧ amount ≤ remaining_of db payment
    ∧ amount ≤ Invoice.balance_due (payment_allocations db)
                 (Invoice.recompute_totals (invoice_lines db) (tax_profiles db) invoice)
    ∧ db' = PaymentAllocation_create
              (PaymentAllocation.mk pk (Invoice.pk invoice) amount)
              (Invoice_write
                 (Invoice.recompute_totals (invoice_lines db) (tax_profiles db) invoice)
                 db).
Proof.
  unfold views.payment_allocate, remaining_of.
  destruct (payments db !! pk) as [payment|]; [|done].
  destruct request as [|invoice_pk amount]; [done|].
  destruct (AllocationForm.cleaned_data _ _ _ _) as [[invoice amount']|] eqn:Hform;
    [|done].
  apply cleaned_data_Some in Hform as (Hinv & -> & Hst & Hmin).
  case_decide; [done|]. simpl. case_decide; [done|].
  intros [= <-]. exists payment, invoice_pk, invoice, amount.
  pose proof (recompute_totals_keeps (invoice_lines db) (tax_profiles db) invoice)
    as (Hpk & _).
  rewrite Hpk. repeat split; (done || lia).
Qed.

(** A request rejected by the guard on the remaining payment. *)
Lemma payment_allocate_exceeds_remaining db request pk db' remaining :
  views.payment_allocate db request pk
  = (db', views.Redirect (views.ExceedsRemainingPayment remaining)) →
  db' = db
  ∧ ∃ payment invoice_pk amount,
      request = views.POST invoice_pk amount
      ∧ payments db !! pk = Some payment
      ∧ remaining = remaining_of db payment
      ∧ amount > remaining.
Proof.
  unfold views.payment_allocate, remaining_of.
  destruct (payments db !! pk) as [payment|]; [|done].
  destruct request as [|invoice_pk amount]; [done|].
  destruct (AllocationForm.cleaned_data _ _ _ _) as [[invoice amount']|] eqn:Hform;
    [|done].
  apply cleaned_data_Some in Hform as (Hinv & -> & Hst & Hmin).
  case_decide; [|simpl; by case_decide].
  intros [= <- <-]. split; [done|]. by exists payment, invoice_pk, amount.
Qed.

(** A request rejected by the guard on the invoice balance: the invoice has
    been recomputed and saved by then. *)
Lemma payment_allocate_exceeds_balance db request pk db' balance :
  views.payment_allocate db request pk
  = (db', views.Redirect (views.ExceedsInvoiceBalance balance)) →
  ∃ invoice_pk invoice amount,
    request = views.POST invoice_pk amount
    ∧ invoices db !! invoice_pk = Some invoice
    ∧ balance = Invoice.balance_due (payment_allocations db)
                  (Invoice.recompute_totals (invoice_lines db) (tax_profiles db) invoice)
    ∧ amount > balance
    ∧ db' = Invoice_write
              (Invoice.recompute_totals (invoice_lines db) (tax_profiles db) invoice)
              db.
Proof.
  unfold views.payment_allocate.
  destruct (payments db !! pk) as [payment|]; [|done].
  destruct request as [|invoice_pk amount]; [done|].
  destruct (AllocationForm.cleaned_data _ _ _ _) as [[invoice amount']|] eqn:Hform;
    [|done].
  apply cleaned_data_Some in Hform as (Hinv & -> & Hst & Hmin).
  case_decide; [done|]. simpl. case_decide; [|done].
  intros [= <- <-]. by exists invoice_pk, invoice, amount.
Qed.

Lemma Invoice_save_current db (invoice : Invoice.t) :
  invoices db !! Invoice.pk invoice = Some invoice →
  Invoice_write invoice db = db.
Proof.
  intros Hstored. unfold Invoice_write. rewrite insert_id by done. by destruct db.
Qed.
End payment_allocate.

(** ** Allocation bounds *)

Lemma allocations_of_payment_snoc (allocs : list PaymentAllocation.t)
    (a : PaymentAllocation.t) (payment : Payment.t) :
  sum (PaymentAllocation.amount <$> Payment.allocations (allocs ++ [a]) payment) 0
  = sum (PaymentAllocation.amount <$> Payment.allocations allocs payment) 0
    + (if decide (PaymentAllocation.payment a = Payment.pk payment)
       then PaymentAllocation.amount a else 0).
Proof.
  unfold Payment.allocations. rewrite filter_app, fmap_app, sum_app.
  f_equal. case_decide.
  - rewrite filter_cons_True by done. unfold sum. simpl. lia.
  - rewrite filter_cons_False by done. done.
Qed.

Lemma amount_paid_snoc (allocs : list PaymentAllocation.t)
    (a : PaymentAllocation.t) (inv : Invoice.t) :
  Invoice.amount_paid (allocs ++ [a]) inv
  = Invoice.amount_paid allocs inv
    + (if decide (PaymentAllocation.invoice a = Invoice.pk inv)
       then PaymentAllocation.amount a else 0).
Proof.
  unfold Invoice.amount_paid, Invoice.allocations.
  rewrite filter_app, fmap_app, sum_app.
  f_equal. case_decide.
  - rewrite filter_cons_True by done. unfold sum. simpl. lia.
  - rewrite filter_cons_False by done. done.
Qed.

Lemma amount_paid_recompute (allocs : list PaymentAllocation.t)
    (line_objects : list InvoiceLine.t) (profiles : list TaxProfile.t)
    (inv : Invoice.t) :
  Invoice.amount_paid allocs (Invoice.recompute_totals line_objects profiles inv)
  = Invoice.amount_paid allocs inv.
Proof.
  unfold Invoice.amount_paid, Invoice.allocations.
  pose proof (recompute_totals_keeps line_objects profiles inv) as (Hpk & _).
  by rewrite Hpk.
Qed.

(** One accepted allocation keeps the rows under their keys and the two
    bounds. *)
Lemma payment_allocate_added_invariant (db db' : DB) (request : views.Request)
    (pk : nat) :
  db_wf db → allocation_invariant db →
  views.payment_allocate db request pk = (db', views.Redirect views.AllocationAdded) →
  db_wf db' ∧ allocation_invariant db'.
Proof.
  intros [Hwf_inv Hwf_pay] [Hpay Hinv]
    (payment & invoice_pk & invoice & amount & -> & Hpayment & Hinvoice & _ & _
     & Hremaining & Hbalance & ->)%payment_allocate_added.
  set (invoice' := Invoice.recompute_totals (invoice_lines db) (tax_profiles db) invoice)
    in *.
  pose proof (recompute_totals_keeps (invoice_lines db) (tax_profiles db) invoice)
    as (Hpk' & _). fold invoice' in Hpk'.
  pose proof (Hwf_inv _ _ Hinvoice) as Hpk.
  unfold Invoice.balance_due in Hbalance. rewrite quantize_two_places in Hbalance.
  simpl in Hbalance.
  split; [split|split]; simpl.
  - intros k inv. rewrite Hpk', Hpk.
    destruct (decide (k = invoice_pk)) as [->|Hne].
    + rewrite lookup_insert_eq. intros [= <-]. congruence.
    + rewrite lookup_insert_ne by done. apply Hwf_inv.
  - done.
  - intros k p Hp. rewrite allocations_of_payment_snoc. simpl.
    pose proof (Hwf_pay _ _ Hp) as Hk. specialize (Hpay _ _ Hp).
    case_decide; [|lia].
    assert (p = payment) as -> by congruence.
    unfold remaining_of in Hremaining. lia.
  - intros k inv. rewrite Hpk', Hpk.
    destruct (decide (k = invoice_pk)) as [->|Hne].
    + rewrite lookup_insert_eq. intros [= <-].
      rewrite amount_paid_snoc. simpl. rewrite Hpk', Hpk, decide_True by done. lia.
    + rewrite lookup_insert_ne by done. intros Hk.
      rewrite amount_paid_snoc. simpl.
      rewrite (Hwf_inv _ _ Hk), decide_False by (intros ->; done).
      specialize (Hinv _ _ Hk). lia.
Qed.

(** A ledger without allocations satisfies the bounds as soon as no amount
    and no total is negative. *)
Lemma no_allocations_invariant (db : DB) :
  payment_allocations db = [] →
  (∀ k p, payments db !! k = Some p → 0 ≤ Payment.amount p) →
  (∀ k inv, invoices db !! k = Some inv → 0 ≤ Invoice.total inv) →
  allocation_invariant db.
Proof.
  intros Hnone Hpayments Hinvoices. split.
  - intros k p Hp. rewrite Hnone. by apply (Hpayments k).
  - intros k inv Hinv. unfold Invoice.amount_paid. rewrite Hnone.
    by apply (Hinvoices k).
Qed.

Lemma allocate_all_cons (db : DB) (pk : nat) (request : views.Request)
    (requests : list (nat * views.Request)) :
  allocate_all db ((pk, request) :: requests)
  = ((allocate_all (views.payment_allocate db request pk).1 requests).1,
     (views.payment_allocate db request pk).2
       :: (allocate_all (views.payment_allocate db request pk).1 requests).2).
Proof.
  simpl. destruct (views.payment_allocate db request pk) as [db1 response].
  simpl. by destruct (allocate_all db1 requests).
Qed.

Lemma allocate_all_added_invariant (requests : list (nat * views.Request)) :
  ∀ db : DB,
  db_wf db → allocation_invariant db →
  Forall (λ response, response = views.Redirect views.AllocationAdded)
         (allocate_all db requests).2 →
  db_wf (allocate_all db requests).1
  ∧ allocation_invariant (allocate_all db requests).1.
Proof.
  induction requests as [|[pk request] requests IH]; intros db Hwf Hbounds; [done|].
  rewrite allocate_all_cons. simpl.
  intros [Hfirst Hrest]%Forall_cons.
  destruct (views.payment_allocate db request pk) as [db1 response] eqn:Hstep.
  simpl in *. subst response.
  destruct (payment_allocate_added_invariant _ _ _ _ Hwf Hbounds Hstep).
  by apply IH.
Qed.

(** C4.  From a database in which no payment is allocated beyond its amount
    and no invoice beyond its total (as is any database without allocations
    whose amounts and totals are not negative), every run of allocation
    requests that the view accepts leaves a database in which, for every
    payment, the allocations of the payment sum to at most its amount, and
    for every invoice, the allocations against the invoice sum to at most
    its total. *)
Theorem accepted_allocations_within_bounds (db : DB)
    (requests : list (nat * views.Request)) :
  db_wf db →
  allocation_invariant db →
  Forall (λ response, response = views.Redirect views.AllocationAdded)
         (allocate_all db requests).2 →
  let db' := (allocate_all db requests).1 in
  (∀ k payment, payments db' !! k = Some payment →
     sum (PaymentAllocation.amount
            <$> Payment.allocations (payment_allocations db') payment) 0
     ≤ Payment.amount payment)
  ∧ (∀ k invoice, invoices db' !! k = Some invoice →
       sum (PaymentAllocation.amount
              <$> Invoice.allocations (payment_allocations db') invoice) 0
       ≤ Invoice.total invoice).
Proof.
  intros Hwf Hbounds Haccepted.
  by destruct (allocate_all_added_invariant requests db Hwf Hbounds Haccepted)
    as [_ [??]].
Qed.

Lemma accepted_allocations_within_bounds_witness :
  let db' := (allocate_all issued_db
                [(1%nat, views.POST 1 10000); (1%nat, views.POST 1 4999)]).1 in
  sum (PaymentAllocation.amount
         <$> Payment.allocations (payment_allocations db') sample_payment) 0
  ≤ Payment.amount sample_payment
  ∧ sum (PaymentAllocation.amount
           <$> Invoice.allocations (payment_allocations db') issued_invoice) 0
    ≤ Invoice.total issued_invoice.
Proof.
  assert (db_wf issued_db) as Hwf.
  { split.
    - change (map_Forall (λ k inv, Invoice.pk inv = k) (invoices issued_db)).
      apply (bool_decide_unpack _). vm_compute. exact I.
    - change (map_Forall (λ k p, Payment.pk p = k) (payments issued_db)).
      apply (bool_decide_unpack _). vm_compute. exact I. }
  assert (allocation_invariant issued_db) as Hbounds.
  { split.
    - change (map_Forall
                (λ (k : nat) p,
                   sum (PaymentAllocation.amount
                          <$> Payment.allocations (payment_allocations issued_db) p) 0
                   ≤ Payment.amount p)
                (payments issued_db)).
      apply (bool_decide_unpack _). vm_compute. exact I.
    - change (map_Forall
                (λ (k : nat) inv,
                   Invoice.amount_paid (payment_allocations issued_db) inv
                   ≤ Invoice.total inv)
                (invoices issued_db)).
      apply (bool_decide_unpack _). vm_compute. exact I. }
  assert (Forall (λ response, response = views.Redirect views.AllocationAdded)
            (allocate_all issued_db
               [(1%nat, views.POST 1 10000); (1%nat, views.POST 1 4999)]).2)
    as Haccepted.
  { apply (bool_decide_unpack _). vm_compute. exact I. }
  destruct (accepted_allocations_within_bounds issued_db
              [(1%nat, views.POST 1 10000); (1%nat, views.POST 1 4999)]
              Hwf Hbounds Haccepted) as [Hpayments Hinvoices].
  split.
  - apply (Hpayments 1%nat). reflexivity.
  - apply (Hinvoices 1%nat). vm_compute. reflexivity.
Defined.

(** ** Rejected allocations *)

(** C5 (as the code has it).  A request rejected because the amount exceeds
    the remaining payment leaves the database as it was.  A request rejected
    because the amount exceeds the invoice's balance due creates no
    allocation row and leaves the payments and every other table as they
    were, but the target invoice has been saved with freshly recomputed
    subtotal, vat, nhil, getfund and total: its other fields are unchanged,
    and the whole database is unchanged when the stored totals were already
    the recomputed ones. *)
Theorem rejected_allocation_effects (db db' : DB) (request : views.Request) (pk : nat) :
  (∀ remaining,
     views.payment_allocate db request pk
     = (db', views.Redirect (views.ExceedsRemainingPayment remaining)) →
     db' = db)
  ∧ (∀ balance,
       views.payment_allocate db request pk
       = (db', views.Redirect (views.ExceedsInvoiceBalance balance)) →
       payment_allocations db' = payment_allocations db
       ∧ payments db' = payments db
       ∧ document_sequences db' = document_sequences db
       ∧ tax_profiles db' = tax_profiles db
       ∧ invoice_lines db' = invoice_lines db
       ∧ receipts db' = receipts db
       ∧ audit_logs db' = audit_logs db
       ∧ ∃ invoice_pk amount invoice,
           request = views.POST invoice_pk amount
           ∧ invoices db !! invoice_pk = Some invoice
           ∧ let invoice' :=
               Invoice.recompute_totals (invoice_lines db) (tax_profiles db) invoice in
             invoices db' = <[Invoice.pk invoice := invoice']> (invoices db)
             ∧ Invoice.pk invoice' = Invoice.pk invoice
             ∧ Invoice.invoice_type invoice' = Invoice.invoice_type invoice
             ∧ Invoice.status invoice' = Invoice.status invoice
             ∧ Invoice.invoice_no invoice' = Invoice.invoice_no invoice
             ∧ Invoice.customer invoice' = Invoice.customer invoice
             ∧ Invoice.tax_profile invoice' = Invoice.tax_profile invoice
             ∧ (Invoice.pk invoice = invoice_pk → invoice' = invoice → db' = db)).
Proof.
  split.
  - intros remaining Hrejected.
    by apply payment_allocate_exceeds_remaining in Hrejected as [-> _].
  - intros balance
      (invoice_pk & invoice & amount & -> & Hinvoice & _ & _ & ->)%payment_allocate_exceeds_balance.
    repeat (split; [done|]).
    exists invoice_pk, amount, invoice. repeat (split; [done|]). cbn zeta.
    pose proof (recompute_totals_keeps (invoice_lines db) (tax_profiles db) invoice)
      as (Hpk & Hty & Hst & Hno & Hcu & Htp).
    simpl. rewrite Hpk. repeat (split; [done|]).
    intros <- Hcurrent. rewrite Hcurrent. by apply Invoice_save_current.
Qed.

Lemma rejected_allocation_effects_witness :
  (views.payment_allocate issued_db (views.POST 1 20001) 1).1 = issued_db
  ∧ payment_allocations (views.payment_allocate issued_db (views.POST 1 15000) 1).1
    = payment_allocations issued_db.
Proof.
  split.
  - symmetry.
    refine (proj1 (rejected_allocation_effects issued_db _ (views.POST 1 20001) 1)
              20000 _).
    vm_compute. reflexivity.
  - symmetry.
    refine (proj1 (proj2 (rejected_allocation_effects issued_db _
                            (views.POST 1 15000) 1) 14999 _)).
    vm_compute. reflexivity.
Defined.

(** C5 as stated fails: once the active profile has changed, a request
    rejected by the balance guard has already replaced the invoice's stored
    vat and total by the recomputed ones. *)
Lemma rejected_allocation_rewrites_totals :
  let db := set_tax_profiles [seed_profile; later_profile] issued_db in
  let result := views.payment_allocate db (views.POST 1 20000) 1 in
  result.2 = views.Redirect (views.ExceedsInvoiceBalance 15624)
  ∧ Invoice.total <$> invoices db !! 1%nat = Some 14999
  ∧ Invoice.total <$> invoices result.1 !! 1%nat = Some 15624
  ∧ Invoice.vat <$> invoices db !! 1%nat = Some 1875
  ∧ Invoice.vat <$> invoices result.1 !! 1%nat = Some 2500
  ∧ result.1 ≠ db.
Proof.
  repeat split; try (vm_compute; reflexivity).
  intros Heq. apply (f_equal (λ d, Invoice.total <$> invoices d !! 1%nat)) in Heq.
  vm_compute in Heq. discriminate.
Qed.

(** ** Invoice status under allocation *)

(** [payment_allocate] never writes a status: whatever the request, every
    stored invoice keeps the status it had. *)
Lemma payment_allocate_keeps_status (db : DB) (request : views.Request) (pk k : nat)
    (inv' : Invoice.t) :
  db_wf db →
  invoices (views.payment_allocate db request pk).1 !! k = Some inv' →
  ∃ inv, invoices db !! k = Some inv ∧ Invoice.status inv' = Invoice.status inv.
Proof.
  intros [Hwf _]. unfold views.payment_allocate.
  destruct (payments db !! pk) as [payment|]; [|by eauto].
  destruct request as [|invoice_pk amount]; [by eauto|].
  destruct (AllocationForm.cleaned_data _ _ _ _) as [[invoice amount']|] eqn:Hform;
    [|by eauto].
  apply cleaned_data_Some in Hform as (Hinv & -> & _ & _).
  pose proof (recompute_totals_keeps (invoice_lines db) (tax_profiles db) invoice)
    as (Hpk & _ & Hst & _).
  pose proof (Hwf _ _ Hinv) as Hkey.
  assert (∀ inv', <[Invoice.pk (Invoice.recompute_totals (invoice_lines db)
                                  (tax_profiles db) invoice)
                    := Invoice.recompute_totals (invoice_lines db) (tax_profiles db)
                         invoice]> (invoices db) !! k = Some inv' →
            ∃ inv, invoices db !! k = Some inv
                   ∧ Invoice.status inv' = Invoice.status inv) as Hsaved.
  { intros inv1. rewrite Hpk, Hkey.
    destruct (decide (invoice_pk = k)) as [->|Hne].
    - rewrite lookup_insert_eq. intros [= <-]. by exists invoice.
    - rewrite lookup_insert_ne by done. by eauto. }
  case_decide; [by eauto|]. simpl. case_decide; simpl; apply Hsaved.
Qed.

(** C1 at a failing input.  Invoice 1 is ISSUED with total 149.99 and
    payment 1 amounts to 200.00.  Allocating 149.99 is accepted and the
    allocation row is stored, the balance due of the stored invoice is 0.00,
    and its status is still ISSUED, not PAID; allocating 100.00 instead
    leaves a balance of 49.99 with status ISSUED, not PART_PAID. *)
Theorem payment_allocate_leaves_status :
  let full := views.payment_allocate issued_db (views.POST 1 14999) 1 in
  let part := views.payment_allocate issued_db (views.POST 1 10000) 1 in
  (full.2 = views.Redirect views.AllocationAdded
   ∧ payment_allocations full.1 = [PaymentAllocation.mk 1 1 14999]
   ∧ Invoice.balance_due (payment_allocations full.1) <$> invoices full.1 !! 1%nat
     = Some 0
   ∧ Invoice.status <$> invoices full.1 !! 1%nat = Some Invoice.ISSUED)
  ∧ (part.2 = views.Redirect views.AllocationAdded
     ∧ payment_allocations part.1 = [PaymentAllocation.mk 1 1 10000]
     ∧ Invoice.balance_due (payment_allocations part.1) <$> invoices part.1 !! 1%nat
       = Some 4999
     ∧ Invoice.total <$> invoices part.1 !! 1%nat = Some 14999
     ∧ Invoice.status <$> invoices part.1 !! 1%nat = Some Invoice.ISSUED).
Proof. vm_compute. repeat split. Qed.

(** The sibling path: [create_receipt_for_payment] does settle the status
    of the invoices the payment is allocated to. *)
Lemma create_receipt_settles_status :
  let full := (views.payment_allocate issued_db (views.POST 1 14999) 1).1 in
  let part := (views.payment_allocate issued_db (views.POST 1 10000) 1).1 in
  Invoice.status
    <$> invoices (services.create_receipt_for_payment full sample_payment None).1 !! 1%nat
  = Some Invoice.PAID
  ∧ Invoice.status
      <$> invoices (services.create_receipt_for_payment part sample_payment None).1 !! 1%nat
    = Some Invoice.PART_PAID.
Proof. vm_compute. by split. Qed.

(** ** The profile of an issued invoice *)

(** A profile stored on the invoice takes precedence over the active one. *)
Lemma frozen_profile_resolved (profiles : list TaxProfile.t) (self : Invoice.t)
    (tp : TaxProfile.t) :
  Invoice.tax_profile_row profiles self = Some tp →
  Invoice.resolve_profile profiles self = Some tp.
Proof. intros Hrow. unfold Invoice.resolve_profile. by rewrite Hrow. Qed.

(** Issuance stores no profile on the invoice. *)
Lemma issue_invoice_keeps_tax_profile (db : DB) (invoice issued : Invoice.t)
    (actor : option nat) :
  (services.issue_invoice db invoice actor).2 = Returned issued →
  Invoice.tax_profile issued = Invoice.tax_profile invoice.
Proof.
  destruct (decide (Invoice.status invoice = Invoice.DRAFT)) as [Hdraft|Hother].
  - destruct (services.issue_invoice db invoice actor) as [db' outcome] eqn:Hcall.
    simpl. intros ->.
    destruct (issue_invoice_draft_returned _ _ _ _ _ Hdraft Hcall) as (-> & _).
    simpl.
    match goal with |- context [Invoice.recompute_totals ?l ?p ?i] =>
      pose proof (recompute_totals_keeps l p i) as (_ & _ & _ & _ & _ & Hkept) end.
    rewrite Hkept. unfold Invoice.assign_number_if_needed.
    repeat case_decide; try destruct (DocumentSequence.next _ _); done.
  - rewrite issue_invoice_not_draft by done. by intros [= <-].
Qed.

(** C2 at a failing input.  The draft VAT invoice 1 (subtotal 125.00) is
    issued while the seed profile (VAT 15%) is the active one: vat is 18.75
    and total 149.99, the status is ISSUED and no profile is stored on the
    invoice.  Once a later profile (VAT 20%) is active as well,
    [recompute_totals] on the issued invoice gives vat 25.00 and total
    156.24. *)
Theorem issued_invoice_follows_active_profile :
  Invoice.status issued_invoice = Invoice.ISSUED
  ∧ Invoice.tax_profile issued_invoice = None
  ∧ Invoice.vat issued_invoice = 1875
  ∧ Invoice.total issued_invoice = 14999
  ∧ Invoice.resolve_profile [seed_profile; later_profile] issued_invoice
    = Some later_profile
  ∧ Invoice.vat (Invoice.recompute_totals sample_lines [seed_profile; later_profile]
                   issued_invoice) = 2500
  ∧ Invoice.total (Invoice.recompute_totals sample_lines [seed_profile; later_profile]
                     issued_invoice) = 15624.
Proof. vm_compute. repeat split. Qed.

(** * Further properties of the code *)

(** ** Rounding *)

Lemma round_half_even_nearest (n d : Z) :
  0 < d →
  2 * Z.abs (d * Decimal.round_half_even n d - n) ≤ d
  ∧ (2 * Z.abs (d * Decimal.round_half_even n d - n) = d →
     Z.even (Decimal.round_half_even n d) = true)
  ∧ (n `mod` d = 0 → d * Decimal.round_half_even n d = n).
Proof.
  intros Hd. unfold Decimal.round_half_even.
  pose proof (Z.div_mod n d ltac:(lia)) as Hdm.
  pose proof (Z.mod_pos_bound n d Hd) as Hr.
  set (q := n `div` d) in *. set (r := n `mod` d) in *.
  repeat case_decide.
  - repeat split; intros; lia.
  - repeat split; intros; lia.
  - destruct (Z.even q) eqn:Heven.
    + repeat split; intros; (done || lia).
    + repeat split; intros; try lia.
      rewrite Z.even_add, Heven. done.
Qed.

(** X1.  [line_total] is a nearest hundredth of [qty * unit_price]: it
    differs from the product by at most half a hundredth, a product that
    lies exactly halfway goes to the even hundredth, and a product that has
    no more than two decimals is returned as it is. *)
Theorem line_total_nearest_cent (ln : InvoiceLine.t) :
  let product := InvoiceLine.qty ln * InvoiceLine.unit_price ln in
  Z.abs (100 * InvoiceLine.line_total ln - product) ≤ 50
  ∧ (Z.abs (100 * InvoiceLine.line_total ln - product) = 50 →
     Z.even (InvoiceLine.line_total ln) = true)
  ∧ (product `mod` 100 = 0 → 100 * InvoiceLine.line_total ln = product).
Proof.
  intros product. rewrite line_total_rounds. fold product.
  destruct (round_half_even_nearest product 100 ltac:(lia)) as (Hnear & Htie & Hexact).
  repeat split; [lia | | done].
  intros Hhalf. apply Htie. lia.
Qed.

Lemma line_total_nearest_cent_witness :
  Z.even (InvoiceLine.line_total (InvoiceLine.mk 1 "tie" 50 1)) = true
  ∧ 100 * InvoiceLine.line_total (InvoiceLine.mk 1 "exact" 200 5000) = 200 * 5000.
Proof.
  destruct (line_total_nearest_cent (InvoiceLine.mk 1 "tie" 50 1)) as (_ & Htie & _).
  destruct (line_total_nearest_cent (InvoiceLine.mk 1 "exact" 200 5000))
    as (_ & _ & Hexact).
  split; [apply Htie | apply Hexact]; reflexivity.
Defined.

Lemma subtotal_error_bound (lines : list InvoiceLine.t) :
  Z.abs (100 * sum (InvoiceLine.line_total <$> lines) 0
         - sum ((λ ln, InvoiceLine.qty ln * InvoiceLine.unit_price ln) <$> lines) 0)
  ≤ 50 * Z.of_nat (length lines).
Proof.
  induction lines as [|ln lines IH].
  - change (sum _ 0) with 0. simpl. lia.
  - rewrite !fmap_cons, !sum_cons.
    destruct (round_half_even_nearest
                (InvoiceLine.qty ln * InvoiceLine.unit_price ln) 100 ltac:(lia))
      as (Hnear & _).
    rewrite line_total_rounds. simpl length. lia.
Qed.

(** X2.  The subtotal that [recompute_totals] stores differs from the exact
    sum of the line products of the invoice by at most half a hundredth per
    line. *)
Theorem recompute_totals_subtotal_error (line_objects : list InvoiceLine.t)
    (profiles : list TaxProfile.t) (self : Invoice.t) :
  let lines := Invoice.lines line_objects self in
  Z.abs (100 * Invoice.subtotal (Invoice.recompute_totals line_objects profiles self)
         - sum ((λ ln, InvoiceLine.qty ln * InvoiceLine.unit_price ln) <$> lines) 0)
  ≤ 50 * Z.of_nat (length lines).
Proof.
  intros lines.
  assert (Invoice.subtotal (Invoice.recompute_totals line_objects profiles self)
          = sum (InvoiceLine.line_total <$> lines) 0) as ->.
  { unfold Invoice.recompute_totals.
    destruct (if decide _ then _ else _) as [[??]?]. simpl.
    by rewrite quantize_two_places. }
  apply subtotal_error_bound.
Qed.

(** ** Totals *)

Lemma recompute_totals_ext (line_objects : list InvoiceLine.t)
    (profiles : list TaxProfile.t) (a b : Invoice.t) :
  Invoice.pk a = Invoice.pk b →
  Invoice.invoice_type a = Invoice.invoice_type b →
  Invoice.status a = Invoice.status b →
  Invoice.invoice_no a = Invoice.invoice_no b →
  Invoice.customer a = Invoice.customer b →
  Invoice.tax_profile a = Invoice.tax_profile b →
  Invoice.recompute_totals line_objects profiles a
  = Invoice.recompute_totals line_objects profiles b.
Proof. destruct a, b. simpl. by intros -> -> -> -> -> ->. Qed.

Lemma recompute_totals_idempotent_aux (line_objects : list InvoiceLine.t)
    (profiles : list TaxProfile.t) (self : Invoice.t) :
  Invoice.recompute_totals line_objects profiles
    (Invoice.recompute_totals line_objects profiles self)
  = Invoice.recompute_totals line_objects profiles self.
Proof.
  pose proof (recompute_totals_keeps line_objects profiles self)
    as (? & ? & ? & ? & ? & ?).
  by apply recompute_totals_ext.
Qed.

(** X3.  [recompute_totals] is idempotent: on unchanged lines and profiles a
    second call returns what the first returned, whatever the cached totals
    were before. *)
Theorem recompute_totals_idempotent (line_objects : list InvoiceLine.t)
    (profiles : list TaxProfile.t) (self : Invoice.t) :
  Invoice.recompute_totals line_objects profiles
    (Invoice.recompute_totals line_objects profiles self)
  = Invoice.recompute_totals line_objects profiles self.
Proof. apply recompute_totals_idempotent_aux. Qed.

(** X4.  After [recompute_totals] the stored total is exactly
    [subtotal + vat + nhil + getfund]. *)
Theorem recompute_totals_total_is_sum (line_objects : list InvoiceLine.t)
    (profiles : list TaxProfile.t) (self : Invoice.t) :
  let self' := Invoice.recompute_totals line_objects profiles self in
  Invoice.total self'
  = Invoice.subtotal self' + Invoice.vat self' + Invoice.nhil self'
    + Invoice.getfund self'.
Proof.
  unfold Invoice.recompute_totals.
  destruct (if decide _ then _ else _) as [[??]?]. simpl.
  by rewrite !quantize_two_places.
Qed.

(** X5.  On an invoice that is not of type VAT, [recompute_totals] stores
    0.00 for vat, nhil and getfund and a total equal to the subtotal,
    whatever profile is stored on the invoice or active. *)
Theorem recompute_totals_nonvat (line_objects : list InvoiceLine.t)
    (profiles : list TaxProfile.t) (self : Invoice.t) :
  Invoice.invoice_type self = Invoice.NONVAT →
  let self' := Invoice.recompute_totals line_objects profiles self in
  Invoice.vat self' = 0 ∧ Invoice.nhil self' = 0 ∧ Invoice.getfund self' = 0
  ∧ Invoice.total self' = Invoice.subtotal self'.
Proof.
  intros Hty. unfold Invoice.recompute_totals. rewrite Hty. simpl.
  rewrite !quantize_two_places. repeat split; lia.
Qed.

Lemma recompute_totals_nonvat_witness :
  let self' :=
    Invoice.recompute_totals sample_lines [seed_profile]
      (Invoice.mk 1 Invoice.NONVAT Invoice.DRAFT EmptyString 7 (Some 1%nat) 0 9 9 9 0) in
  Invoice.vat self' = 0 ∧ Invoice.nhil self' = 0 ∧ Invoice.getfund self' = 0
  ∧ Invoice.total self' = Invoice.subtotal self'.
Proof. apply recompute_totals_nonvat. reflexivity. Defined.

Lemma sum_Permutation (xs ys : list Z) : xs ≡ₚ ys → sum xs 0 = sum ys 0.
Proof.
  induction 1 as [|x xs ys _ IH|x y xs|xs ys zs _ IH1 _ IH2].
  - done.
  - by rewrite !sum_cons, IH.
  - rewrite !sum_cons. lia.
  - by rewrite IH1.
Qed.

(** X6.  The totals do not depend on the order in which the line rows come
    back from the database: for two line tables that are permutations of
    one another, [recompute_totals] returns the same invoice. *)
Theorem recompute_totals_line_order (line_objects line_objects' : list InvoiceLine.t)
    (profiles : list TaxProfile.t) (self : Invoice.t) :
  line_objects ≡ₚ line_objects' →
  Invoice.recompute_totals line_objects profiles self
  = Invoice.recompute_totals line_objects' profiles self.
Proof.
  intros Hperm. unfold Invoice.recompute_totals.
  assert (sum (InvoiceLine.line_total <$> Invoice.lines line_objects self) 0
          = sum (InvoiceLine.line_total <$> Invoice.lines line_objects' self) 0) as ->.
  { apply sum_Permutation, fmap_Permutation. unfold Invoice.lines. by rewrite Hperm. }
  done.
Qed.

Lemma recompute_totals_line_order_witness :
  Invoice.recompute_totals sample_lines [seed_profile] draft_invoice
  = Invoice.recompute_totals (reverse sample_lines) [seed_profile] draft_invoice.
Proof.
  apply recompute_totals_line_order. apply Permutation_swap.
Defined.

(** X7.  A profile stored on a VAT invoice shields it from the active
    profiles: for two profile tables in which the stored key finds the same
    row, [recompute_totals] returns the same invoice. *)
Theorem recompute_totals_stored_profile (line_objects : list InvoiceLine.t)
    (profiles profiles' : list TaxProfile.t) (self : Invoice.t) (tp : TaxProfile.t) :
  Invoice.tax_profile_row profiles self = Some tp →
  Invoice.tax_profile_row profiles' self = Some tp →
  Invoice.recompute_totals line_objects profiles self
  = Invoice.recompute_totals line_objects profiles' self.
Proof.
  intros Hrow Hrow'. unfold Invoice.recompute_totals, Invoice.resolve_profile.
  by rewrite Hrow, Hrow'.
Qed.

Lemma recompute_totals_stored_profile_witness :
  let frozen :=
    Invoice.mk 1 Invoice.VAT Invoice.ISSUED "SAMDA/VAT/000001" 7 (Some 1%nat)
      0 0 0 0 0 in
  Invoice.recompute_totals sample_lines [seed_profile] frozen
  = Invoice.recompute_totals sample_lines [seed_profile; later_profile] frozen.
Proof.
  apply (recompute_totals_stored_profile _ _ _ _ seed_profile); reflexivity.
Defined.

(** ** Document numbers as strings *)

Section document_numbers.
Implicit Types (objects : gmap string DocumentSequence.t) (key : string).

Lemma zeros_length (n : nat) : String.length (DocumentSequence.zeros n) = n.
Proof. induction n; simpl; congruence. Qed.

Lemma pretty_N_char_zero (x : N) :
  (x < 10)%N → pretty_N_char x = "0"%char → x = 0%N.
Proof. intros Hx. apply (pretty_N_char_inj x 0 Hx). lia. Qed.

(** The digits of a positive number do not begin with a zero. *)
Lemma pretty_N_go_head (x : N) : ∀ s : string,
  (0 < x)%N → ∃ c rest, pretty_N_go x s = String c rest ∧ c ≠ "0"%char.
Proof.
  induction (N.lt_wf_0 x) as [x _ IH]. intros s Hx.
  rewrite pretty_N_go_step by done.
  destruct (decide (x `div` 10 = 0)%N) as [Hsmall|Hbig].
  - rewrite Hsmall, pretty_N_go_0. eexists _, _. split; [done|].
    intros Hzero. apply pretty_N_char_zero in Hzero; [|by apply N.mod_lt].
    pose proof (N.div_mod x 10 ltac:(done)) as Hdm.
    rewrite Hsmall, Hzero in Hdm. lia.
  - apply IH; [by apply N.div_lt | by apply N.neq_0_lt_0].
Qed.

Lemma pretty_N_head (x : N) :
  ∃ c rest, pretty x = String c rest ∧ (c = "0"%char → x = 0%N).
Proof.
  unfold pretty, pretty_N. case_decide as Hx.
  - by eexists _, _.
  - destruct (pretty_N_go_head x EmptyString ltac:(lia)) as (c & rest & -> & Hc).
    by eexists _, _.
Qed.

Lemma zeros_app_inv (m : nat) : ∀ (n : nat) (s t : string),
  DocumentSequence.zeros m +:+ s = DocumentSequence.zeros n +:+ t →
  (m ≤ n)%nat →
  s = DocumentSequence.zeros (n - m) +:+ t.
Proof.
  induction m as [|m IH]; intros n s t Heq Hle; simpl in *.
  - by rewrite Nat.sub_0_r.
  - destruct n as [|n]; [lia|]. simpl in Heq. injection Heq as Heq.
    apply IH; [done | lia].
Qed.

Lemma format_06d_inj (a b : N) :
  DocumentSequence.format_06d a = DocumentSequence.format_06d b → a = b.
Proof.
  assert (∀ a b : N,
            (String.length (pretty b) ≤ String.length (pretty a))%nat →
            DocumentSequence.format_06d a = DocumentSequence.format_06d b → a = b)
    as Hordered.
  { clear a b. intros a b Hlen Heq. unfold DocumentSequence.format_06d in Heq.
    apply zeros_app_inv in Heq; [|lia].
    destruct (6 - String.length (pretty b) - (6 - String.length (pretty a)))%nat
      as [|k] eqn:Hk.
    - simpl in Heq. by apply (inj pretty).
    - simpl in Heq.
      destruct (pretty_N_head a) as (c & rest & Ha & Hzero).
      rewrite Ha in Heq. injection Heq as Hc Hrest.
      pose proof (Hzero Hc) as ->.
      destruct (pretty_N_head b) as (c' & rest' & Hb & _).
      rewrite Hb in Hlen, Hk. change (pretty 0%N) with "0" in Hlen, Hk.
      simpl in Hlen, Hk. destruct rest'; simpl in Hlen, Hk; lia. }
  intros Heq.
  destruct (decide (String.length (pretty b) ≤ String.length (pretty a))%nat).
  - by apply Hordered.
  - symmetry. apply Hordered; [lia | done].
Qed.

Lemma string_app_inv_l (p s t : string) : p +:+ s = p +:+ t → s = t.
Proof. induction p as [|c p IH]; simpl; [done|]. intros [= ?]. by apply IH. Qed.

Lemma prefix_of_after objects key key' :
  prefix_of (DocumentSequence.next_drawn objects key).1.1 key' = prefix_of objects key'.
Proof.
  rewrite next_drawn_eq. simpl. unfold prefix_of at 1.
  destruct (decide (key = key')) as [->|Hne].
  - by rewrite lookup_insert_eq.
  - rewrite lookup_insert_ne by done. done.
Qed.

Lemma next_eq objects key :
  DocumentSequence.next objects key
  = ((DocumentSequence.next_drawn objects key).1.1,
     prefix_of objects key +:+ DocumentSequence.format_06d (upcoming objects key)).
Proof. unfold DocumentSequence.next. by rewrite next_drawn_eq. Qed.

(** The strings of a run are the integers of the run, formatted behind the
    prefix the key had when the run started. *)
Lemma next_numbers_formatted keys : ∀ objects,
  next_numbers objects keys
  = (λ kn, prefix_of objects kn.1 +:+ DocumentSequence.format_06d kn.2)
      <$> (next_many objects keys).2.
Proof.
  induction keys as [|k keys IH]; intros objects; [done|].
  rewrite next_many_cons. simpl. rewrite next_eq.
  f_equal. rewrite IH. apply list_fmap_ext. intros i [k' n] _. simpl.
  by rewrite prefix_of_after.
Qed.

Lemma next_many_keys keys : ∀ objects, (next_many objects keys).2.*1 = keys.
Proof.
  induction keys as [|k keys IH]; intros objects; [done|].
  rewrite next_many_cons. simpl. by rewrite IH.
Qed.
End document_numbers.

(** X8.  Zero-padding to six digits loses nothing: two integers with the
    same formatted number are the same integer. *)
Theorem format_06d_injective (a b : N) :
  DocumentSequence.format_06d a = DocumentSequence.format_06d b → a = b.
Proof. apply format_06d_inj. Qed.

Lemma format_06d_injective_witness : (12 = 12)%N.
Proof. apply format_06d_injective. reflexivity. Defined.

(** X9.  In any run of calls of [DocumentSequence.next], two calls for the
    same key return different document numbers. *)
Theorem next_numbers_distinct (objects : gmap string DocumentSequence.t)
    (keys : list string) (i j : nat) (key no_i no_j : string) :
  (i < j)%nat →
  keys !! i = Some key → keys !! j = Some key →
  next_numbers objects keys !! i = Some no_i →
  next_numbers objects keys !! j = Some no_j →
  no_i ≠ no_j.
Proof.
  intros Hij Hki Hkj. rewrite next_numbers_formatted, !list_lookup_fmap.
  pose proof (next_many_keys keys objects) as Hkeys.
  destruct ((next_many objects keys).2 !! i) as [[ki ni]|] eqn:Hi; [|done].
  destruct ((next_many objects keys).2 !! j) as [[kj nj]|] eqn:Hj; [|done].
  assert (ki = key) as ->.
  { apply (f_equal (λ l, l !! i)) in Hkeys.
    rewrite list_lookup_fmap, Hi, Hki in Hkeys. by simplify_eq/=. }
  assert (kj = key) as ->.
  { apply (f_equal (λ l, l !! j)) in Hkeys.
    rewrite list_lookup_fmap, Hj, Hkj in Hkeys. by simplify_eq/=. }
  simpl. intros [= <-] [= <-] Heq.
  apply string_app_inv_l, format_06d_inj in Heq.
  pose proof (next_many_increasing keys objects i j key ni nj Hij Hi Hj). lia.
Qed.

Lemma next_numbers_distinct_witness :
  "SAMDA/000001" ≠ "SAMDA/000002".
Proof.
  apply (next_numbers_distinct ∅ ["RECEIPT"; "INV_VAT"; "RECEIPT"] 0 2 "RECEIPT");
    (lia || reflexivity).
Defined.

(** ** Number assignment *)

Lemma next_not_empty (objects : gmap string DocumentSequence.t) (key : string) :
  (DocumentSequence.next objects key).2 ≠ EmptyString.
Proof.
  rewrite next_eq. simpl. intros Hempty.
  apply (f_equal String.length) in Hempty.
  rewrite string_length_app, format_06d_length in Hempty. simpl in Hempty. lia.
Qed.

Lemma assign_number_not_empty (sequences : gmap string DocumentSequence.t)
    (invoice : Invoice.t) :
  Invoice.invoice_no (Invoice.assign_number_if_needed sequences invoice).2
  ≠ EmptyString.
Proof.
  destruct (decide (Invoice.invoice_no invoice = EmptyString)) as [Hno|Hno].
  - rewrite (assign_number_fresh _ _ Hno). apply next_not_empty.
  - by rewrite (assign_number_kept _ _ Hno).
Qed.

(** X10.  [assign_number_if_needed] is idempotent, for invoices and for
    receipts: after a first call the document carries a non-empty number,
    and a second call returns the same document without touching any
    counter. *)
Theorem assign_number_if_needed_idempotent
    (sequences : gmap string DocumentSequence.t) (invoice : Invoice.t)
    (receipt : Receipt.t) :
  (let first := Invoice.assign_number_if_needed sequences invoice in
   Invoice.invoice_no first.2 ≠ EmptyString
   ∧ Invoice.assign_number_if_needed first.1 first.2 = first)
  ∧ (let first := Receipt.assign_number_if_needed sequences receipt in
     Receipt.receipt_no first.2 ≠ EmptyString
     ∧ Receipt.assign_number_if_needed first.1 first.2 = first).
Proof.
  split; cbn zeta.
  - pose proof (assign_number_not_empty sequences invoice) as Hno.
    split; [done|].
    destruct (Invoice.assign_number_if_needed sequences invoice) as [sequences' invoice'].
    by apply assign_number_kept.
  - unfold Receipt.assign_number_if_needed.
    destruct (decide (Receipt.receipt_no receipt = EmptyString)) as [Hno|Hno].
    + pose proof (next_not_empty sequences "RECEIPT") as Hnext.
      destruct (DocumentSequence.next sequences "RECEIPT") as [sequences' no].
      simpl in *. split; [done|]. by rewrite decide_False.
    + simpl. split; [done|]. by rewrite decide_False.
Qed.

Lemma invoice_no_taken_true (db : DB) (invoice : Invoice.t) :
  invoice_no_taken db invoice = true
  ↔ ∃ k other, invoices db !! k = Some other ∧ k ≠ Invoice.pk invoice
               ∧ Invoice.invoice_no other = Invoice.invoice_no invoice.
Proof. unfold invoice_no_taken. by rewrite bool_decide_eq_true. Qed.

Lemma invoice_no_taken_false (db : DB) (invoice : Invoice.t) :
  invoice_no_taken db invoice = false
  ↔ ∀ k other, invoices db !! k = Some other → k ≠ Invoice.pk invoice →
               Invoice.invoice_no other ≠ Invoice.invoice_no invoice.
Proof.
  rewrite <-not_true_iff_false, invoice_no_taken_true. split.
  - intros Hnone k other Hk Hne Hno. apply Hnone. by exists k, other.
  - intros Hall (k & other & Hk & Hne & Hno). by apply (Hall k other).
Qed.

(** X11.  A call of [issue_invoice] on a draft ends in one of two ways.  It
    raises IntegrityError, only when another stored invoice carries the
    number the draft has or is given, and then the database is as it was,
    counters included.  Or it returns an invoice that is ISSUED and carries
    a non-empty invoice number that no other stored invoice carries, stores
    it under the key of the draft, writes one INVOICE_ISSUED audit row for
    the actor, and leaves lines, payments, allocations, receipts and tax
    profiles as they were. *)
Theorem issue_invoice_draft_effects (db : DB) (invoice : Invoice.t)
    (actor : option nat) :
  Invoice.status invoice = Invoice.DRAFT →
  (∀ exception,
     (services.issue_invoice db invoice actor).2 = Raised exception →
     services.issue_invoice db invoice actor = (db, Raised "IntegrityError")
     ∧ ∃ k other,
         invoices db !! k = Some other ∧ k ≠ Invoice.pk invoice
         ∧ Invoice.invoice_no other
           = Invoice.invoice_no
               (Invoice.assign_number_if_needed (document_sequences db) invoice).2)
  ∧ ∀ db' issued,
      services.issue_invoice db invoice actor = (db', Returned issued) →
      Invoice.status issued = Invoice.ISSUED
      ∧ Invoice.invoice_no issued ≠ EmptyString
      ∧ (∀ k other, invoices db !! k = Some other → k ≠ Invoice.pk invoice →
                    Invoice.invoice_no other ≠ Invoice.invoice_no issued)
      ∧ Invoice.pk issued = Invoice.pk invoice
      ∧ invoices db' = <[Invoice.pk invoice := issued]> (invoices db)
      ∧ (∃ entry, audit_logs db' = audit_logs db ++ [entry]
                  ∧ AuditLog.action entry = "INVOICE_ISSUED"
                  ∧ AuditLog.actor entry = actor
                  ∧ AuditLog.message entry = "Issued " +:+ Invoice.invoice_no issued)
      ∧ invoice_lines db' = invoice_lines db
      ∧ payments db' = payments db
      ∧ payment_allocations db' = payment_allocations db
      ∧ receipts db' = receipts db
      ∧ tax_profiles db' = tax_profiles db.
Proof.
  intros Hdraft.
  pose proof (assign_number_not_empty (document_sequences db) invoice) as Hno.
  pose proof (assign_number_pk (document_sequences db) invoice) as Hpk.
  pose proof (recompute_totals_keeps (invoice_lines db) (tax_profiles db)
                (Invoice.assign_number_if_needed (document_sequences db) invoice).2)
    as (Hpk' & _ & _ & Hno' & _).
  split.
  - intros e Hraised.
    destruct (issue_invoice_draft_raised db invoice actor e Hdraft Hraised)
      as [Hcall Htaken].
    split; [done|].
    apply invoice_no_taken_true in Htaken as (k & other & Hk & Hne & Hother).
    simpl in Hne, Hother. rewrite Hpk', Hpk in Hne. rewrite Hno' in Hother.
    by exists k, other.
  - intros db' issued Hcall.
    destruct (issue_invoice_draft_returned _ _ _ _ _ Hdraft Hcall)
      as (Hissued & Hfree & ->).
    cbn zeta in Hissued.
    assert (Invoice.pk issued = Invoice.pk invoice) as Hissued_pk
      by (rewrite Hissued; simpl; congruence).
    assert (Invoice.invoice_no issued
            = Invoice.invoice_no
                (Invoice.assign_number_if_needed (document_sequences db) invoice).2)
      as Hissued_no by (rewrite Hissued; simpl; congruence).
    split; [by rewrite Hissued|]. split; [by rewrite Hissued_no|]. split.
    { intros k other Hk Hne. apply (proj1 (invoice_no_taken_false db issued) Hfree k other Hk).
      by rewrite Hissued_pk. }
    split; [done|]. simpl. rewrite Hissued_pk. split; [done|].
    split; [eexists; by repeat split|]. by repeat split.
Qed.

Lemma issue_invoice_draft_effects_witness :
  Invoice.status issued_invoice = Invoice.ISSUED
  ∧ Invoice.invoice_no issued_invoice ≠ EmptyString
  ∧ payments issued_db = payments sample_db
  ∧ services.issue_invoice issued_db
      (Invoice.mk 2 Invoice.NONVAT Invoice.DRAFT EmptyString 7 None 0 0 0 0 0) None
    = (issued_db, Raised "IntegrityError").
Proof.
  destruct (issue_invoice_draft_effects sample_db draft_invoice None eq_refl)
    as (_ & Hreturned).
  destruct (Hreturned issued_db issued_invoice eq_refl)
    as (Hst & Hno & _ & _ & _ & _ & _ & Hpay & _).
  destruct (issue_invoice_draft_effects issued_db
              (Invoice.mk 2 Invoice.NONVAT Invoice.DRAFT EmptyString 7 None 0 0 0 0 0)
              None eq_refl) as (Hraised & _).
  destruct (Hraised "IntegrityError" eq_refl) as [Hcall _].
  by repeat split.
Defined.

(** ** More on the allocation view *)

Section allocation_view.
Implicit Types (db : DB) (request : views.Request) (pk : nat).





End allocation_view.



(** X13.  An accepted allocation leaves the payment and the recomputed
    invoice stored, lowers the unallocated rest of the payment and the
    balance due of the invoice by exactly the amount, and leaves both
    non-negative. *)
Theorem payment_allocate_added_balances (db db' : DB) (request : views.Request)
    (pk : nat) :
  db_wf db →
  views.payment_allocate db request pk = (db', views.Redirect views.AllocationAdded) →
  ∃ payment invoice_pk invoice amount,
    request = views.POST invoice_pk amount
    ∧ payments db !! pk = Some payment
    ∧ invoices db !! invoice_pk = Some invoice
    ∧ let invoice' :=
        Invoice.recompute_totals (invoice_lines db) (tax_profiles db) invoice in
      payments db' !! pk = Some payment
      ∧ invoices db' !! invoice_pk = Some invoice'
      ∧ payment_allocations db'
        = payment_allocations db ++ [PaymentAllocation.mk pk invoice_pk amount]
      ∧ remaining_of db' payment = remaining_of db payment - amount
      ∧ 0 ≤ remaining_of db' payment
      ∧ Invoice.balance_due (payment_allocations db') invoice'
        = Invoice.balance_due (payment_allocations db) invoice' - amount
      ∧ 0 ≤ Invoice.balance_due (payment_allocations db') invoice'.
Proof.
  intros [Hwf_inv Hwf_pay]
    (payment & invoice_pk & invoice & amount & -> & Hpayment & Hinvoice & _ & _
     & Hremaining & Hbalance & ->)%payment_allocate_added.
  exists payment, invoice_pk, invoice, amount.
  repeat (split; [done|]). cbn zeta.
  set (invoice' := Invoice.recompute_totals (invoice_lines db) (tax_profiles db) invoice)
    in *.
  pose proof (recompute_totals_keeps (invoice_lines db) (tax_profiles db) invoice)
    as (Hpk' & _). fold invoice' in Hpk'.
  pose proof (Hwf_inv _ _ Hinvoice) as Hpk.
  pose proof (Hwf_pay _ _ Hpayment) as Hppk.
  unfold Invoice.balance_due in *. rewrite !quantize_two_places in *.
  unfold remaining_of in *. simpl.
  rewrite allocations_of_payment_snoc, amount_paid_snoc. simpl.
  rewrite Hpk', Hpk, Hppk, !decide_True by done.
  rewrite lookup_insert_eq. repeat split; (done || lia).
Qed.

Lemma payment_allocate_added_balances_witness :
  ∃ payment invoice_pk invoice amount,
    views.POST 1 10000 = views.POST invoice_pk amount
    ∧ payments issued_db !! 1%nat = Some payment
    ∧ invoices issued_db !! invoice_pk = Some invoice
    ∧ remaining_of (views.payment_allocate issued_db (views.POST 1 10000) 1).1 payment
      = remaining_of issued_db payment - amount.
Proof.
  assert (db_wf issued_db) as Hwf.
  { split.
    - change (map_Forall (λ k inv, Invoice.pk inv = k) (invoices issued_db)).
      apply (bool_decide_unpack _). vm_compute. exact I.
    - change (map_Forall (λ k p, Payment.pk p = k) (payments issued_db)).
      apply (bool_decide_unpack _). vm_compute. exact I. }
  destruct (payment_allocate_added_balances issued_db _ (views.POST 1 10000) 1 Hwf
              eq_refl)
    as (payment & invoice_pk & invoice & amount & Hreq & Hpay & Hinv & _ & _ & _
        & Hrem & _).
  exists payment, invoice_pk, invoice, amount. by repeat split.
Defined.

(** X14.  Whatever the request, [payment_allocate] never removes or
    rewrites an allocation row - the table afterwards is the table before
    with at most one row appended - and never writes to the payments, the
    lines, the tax profiles, the counters, the receipts or the audit log;
    invoice rows under keys other than the posted one are untouched and no
    stored invoice changes its status. *)
Theorem payment_allocate_frame (db : DB) (request : views.Request) (pk : nat) :
  db_wf db →
  let db' := (views.payment_allocate db request pk).1 in
  (∃ added, payment_allocations db' = payment_allocations db ++ added
            ∧ (length added ≤ 1)%nat)
  ∧ payments db' = payments db
  ∧ invoice_lines db' = invoice_lines db
  ∧ tax_profiles db' = tax_profiles db
  ∧ document_sequences db' = document_sequences db
  ∧ receipts db' = receipts db
  ∧ audit_logs db' = audit_logs db
  ∧ (∀ k, (∀ amount, request ≠ views.POST k amount) →
          invoices db' !! k = invoices db !! k)
  ∧ (∀ k, Invoice.status <$> invoices db' !! k = Invoice.status <$> invoices db !! k).
Proof.
  intros [Hwf _]. cbn zeta.
  assert (∃ added, payment_allocations db = payment_allocations db ++ added
                   ∧ (length added ≤ 1)%nat) as Hsame.
  { exists []. rewrite app_nil_r. split; [done | simpl; lia]. }
  unfold views.payment_allocate.
  destruct (payments db !! pk) as [payment|]; [|by split].
  destruct request as [|invoice_pk amount]; [by split|].
  destruct (AllocationForm.cleaned_data _ _ _ _) as [[invoice amount']|] eqn:Hform;
    [|by split].
  apply cleaned_data_Some in Hform as (Hinv & -> & _ & _).
  pose proof (recompute_totals_keeps (invoice_lines db) (tax_profiles db) invoice)
    as (Hpk & _ & Hst & _).
  pose proof (Hwf _ _ Hinv) as Hkey.
  assert (∀ k, (∀ a, views.POST invoice_pk amount ≠ views.POST k a) → invoice_pk ≠ k)
    as Hother.
  { intros k Hne <-. by apply (Hne amount). }
  assert (∀ k, Invoice.status
                 <$> <[invoice_pk := Invoice.recompute_totals (invoice_lines db)
                                       (tax_profiles db) invoice]> (invoices db) !! k
               = Invoice.status <$> invoices db !! k) as Hstatus.
  { intros k. destruct (decide (invoice_pk = k)) as [<-|Hne].
    - by rewrite lookup_insert_eq, Hinv; simpl; rewrite Hst.
    - by rewrite lookup_insert_ne. }
  case_decide; [by split|]. simpl.
  case_decide; simpl; rewrite Hpk, Hkey.
  - split; [done|]. repeat (split; [done|]). split; [|done].
    intros k Hne. apply lookup_insert_ne. by apply Hother.
  - split; [eexists [_]; split; [done | simpl; lia]|].
    repeat (split; [done|]). split; [|done].
    intros k Hne. apply lookup_insert_ne. by apply Hother.
Qed.

Lemma payment_allocate_frame_witness :
  payments (views.payment_allocate issued_db (views.POST 1 10000) 1).1
  = payments issued_db
  ∧ Invoice.status
      <$> invoices (views.payment_allocate issued_db (views.POST 1 10000) 1).1 !! 1%nat
    = Invoice.status <$> invoices issued_db !! 1%nat.
Proof.
  assert (db_wf issued_db) as Hwf.
  { split.
    - change (map_Forall (λ k inv, Invoice.pk inv = k) (invoices issued_db)).
      apply (bool_decide_unpack _). vm_compute. exact I.
    - change (map_Forall (λ k p, Payment.pk p = k) (payments issued_db)).
      apply (bool_decide_unpack _). vm_compute. exact I. }
  destruct (payment_allocate_frame issued_db (views.POST 1 10000) 1 Hwf)
    as (_ & Hpay & _ & _ & _ & _ & _ & _ & Hst).
  split; [exact Hpay | exact (Hst 1%nat)].
Defined.



(** ** Receipts and settlement *)

Section settlement.
Implicit Types (db : DB) (inv : Invoice.t).






End settlement.

Section receipts.
Implicit Types (db : DB) (payment : Payment.t) (actor : option nat).



Lemma balance_due_with_status (allocs : list PaymentAllocation.t)
    (st : Invoice.Status) (inv : Invoice.t) :
  Invoice.balance_due allocs (Invoice.with_status st inv) = Invoice.balance_due allocs inv.
Proof. done. Qed.

Lemma next_twice_distinct (objects : gmap string DocumentSequence.t) (key : string) :
  (DocumentSequence.next (DocumentSequence.next objects key).1 key).2
  ≠ (DocumentSequence.next objects key).2.
Proof.
  rewrite !next_eq. simpl. rewrite prefix_of_after, upcoming_after_same.
  intros Heq%string_app_inv_l%format_06d_inj. lia.
Qed.
End receipts.







(** X19.  Two receipts created one after the other, each for a payment that
    had none, carry different receipt numbers. *)
Theorem successive_receipts_differ (db : DB) (payment payment' : Payment.t)
    (actor actor' : option nat) :
  Payment_receipt db payment = None →
  let first := services.create_receipt_for_payment db payment actor in
  Payment_receipt first.1 payment' = None →
  Receipt.receipt_no (services.create_receipt_for_payment first.1 payment' actor').2
  ≠ Receipt.receipt_no first.2.
Proof.
  intros Hnone first Hnone'.
  destruct (create_receipt_fresh first.1 payment' actor' Hnone') as (_ & -> & _).
  destruct (create_receipt_fresh db payment actor Hnone) as (_ & Hno & Hseq).
  cbn zeta in Hno, Hseq. fold first in Hno, Hseq. rewrite Hno, Hseq.
  apply next_twice_distinct.
Qed.

Lemma successive_receipts_differ_witness :
  let second_payment := Payment.mk 2 "Kofi Boateng" 5000 "CASH-2" None in
  Receipt.receipt_no
    (services.create_receipt_for_payment
       (services.create_receipt_for_payment issued_db sample_payment None).1
       second_payment None).2
  ≠ Receipt.receipt_no (services.create_receipt_for_payment issued_db sample_payment None).2.
Proof.
  apply (successive_receipts_differ issued_db sample_payment); reflexivity.
Defined.

(** ** The invoice and receipt views *)

Section views_of_documents.
Context {Bytes : Type}.
Variable invoice_pdf_bytes : Invoice.t → Bytes.
Variable receipt_pdf_bytes : Receipt.t → Bytes.
Implicit Types (db : DB) (pk : nat).


Lemma with_totals_of_recompute (line_objects : list InvoiceLine.t)
    (profiles : list TaxProfile.t) (inv : Invoice.t) :
  let inv' := Invoice.recompute_totals line_objects profiles inv in
  Invoice.with_totals (Invoice.subtotal inv') (Invoice.vat inv') (Invoice.nhil inv')
    (Invoice.getfund inv') (Invoice.total inv') inv
  = inv'.
Proof.
  unfold Invoice.recompute_totals.
  by destruct (if decide _ then _ else _) as [[??]?].
Qed.

Lemma get_invoice_found db pk (invoice : Invoice.t) :
  invoices db !! pk = Some invoice → Invoice_readable invoice = true →
  document_views.get_invoice_or_404 (Bytes:=Bytes) db pk = inr invoice.
Proof.
  intros Hinv Hreadable. unfold document_views.get_invoice_or_404.
  by rewrite Hinv, Hreadable.
Qed.

Lemma get_invoice_unreadable db pk (invoice : Invoice.t) :
  invoices db !! pk = Some invoice → Invoice_readable invoice = false →
  document_views.get_invoice_or_404 (Bytes:=Bytes) db pk
  = inl (document_views.ServerError "InvalidOperation").
Proof.
  intros Hinv Hreadable. unfold document_views.get_invoice_or_404.
  by rewrite Hinv, Hreadable.
Qed.

Lemma get_invoice_inr db pk (invoice : Invoice.t) :
  document_views.get_invoice_or_404 (Bytes:=Bytes) db pk = inr invoice →
  invoices db !! pk = Some invoice ∧ Invoice_readable invoice = true.
Proof.
  unfold document_views.get_invoice_or_404.
  destruct (invoices db !! pk) as [row|]; [|done].
  destruct (Invoice_readable row) eqn:Hreadable; [|done]. by intros [= <-].
Qed.

Lemma get_invoice_inl db pk (response : document_views.Response) :
  document_views.get_invoice_or_404 (Bytes:=Bytes) db pk = inl response →
  response = document_views.Http404
  ∨ response = document_views.ServerError "InvalidOperation".
Proof.
  unfold document_views.get_invoice_or_404.
  destruct (invoices db !! pk) as [row|]; [|intros [= <-]; by left].
  destruct (Invoice_readable row); [done|]. intros [= <-]. by right.
Qed.

Lemma invoice_detail_found db pk (invoice : Invoice.t) :
  invoices db !! pk = Some invoice → Invoice_readable invoice = true →
  document_views.invoice_detail (Bytes:=Bytes) db pk
  = (Invoice_save_totals
       (Invoice.recompute_totals (invoice_lines db) (tax_profiles db) invoice) db,
     document_views.RenderInvoice
       (Invoice.recompute_totals (invoice_lines db) (tax_profiles db) invoice)).
Proof.
  intros Hinv Hreadable. unfold document_views.invoice_detail.
  by rewrite (get_invoice_found _ _ _ Hinv Hreadable).
Qed.

(** X20.  Timestamps aside, which the model leaves out, viewing an invoice
    twice is the same as viewing it once as long as the totals that the
    view computes fit their columns: the second [invoice_detail] then
    answers as the first did and leaves the database as the first left it.
    When a readable invoice has recomputed totals that do not fit, the
    first view stores them all the same and the second view cannot read the
    row back. *)
Theorem invoice_detail_idempotent db pk :
  ((∀ invoice, invoices db !! pk = Some invoice →
      Invoice_readable
        (Invoice.recompute_totals (invoice_lines db) (tax_profiles db) invoice) = true) →
   document_views.invoice_detail (Bytes:=Bytes)
     (document_views.invoice_detail (Bytes:=Bytes) db pk).1 pk
   = document_views.invoice_detail (Bytes:=Bytes) db pk)
  ∧ (∀ invoice,
       invoices db !! pk = Some invoice → Invoice.pk invoice = pk →
       Invoice_readable invoice = true →
       Invoice_readable
         (Invoice.recompute_totals (invoice_lines db) (tax_profiles db) invoice) = false →
       (document_views.invoice_detail (Bytes:=Bytes) db pk).2
       = document_views.RenderInvoice
           (Invoice.recompute_totals (invoice_lines db) (tax_profiles db) invoice)
       ∧ (document_views.invoice_detail (Bytes:=Bytes)
            (document_views.invoice_detail (Bytes:=Bytes) db pk).1 pk).2
         = document_views.ServerError "InvalidOperation").
Proof.
  split.
  - intros Hfits.
    destruct (invoices db !! pk) as [invoice|] eqn:Hinv.
    + destruct (Invoice_readable invoice) eqn:Hreadable.
      * rewrite (invoice_detail_found _ _ _ Hinv Hreadable). simpl.
        set (invoice' :=
               Invoice.recompute_totals (invoice_lines db) (tax_profiles db) invoice).
        pose proof (Hfits invoice eq_refl) as Hfits'. fold invoice' in Hfits'.
        set (f := Invoice.with_totals (Invoice.subtotal invoice') (Invoice.vat invoice')
                    (Invoice.nhil invoice') (Invoice.getfund invoice')
                    (Invoice.total invoice')).
        assert (f invoice = invoice') as Hf
          by apply (with_totals_of_recompute (invoice_lines db) (tax_profiles db) invoice).
        assert (∃ row, invoices (Invoice_save_totals invoice' db) !! pk = Some row
                       ∧ Invoice_readable row = true
                       ∧ Invoice.recompute_totals (invoice_lines db) (tax_profiles db) row
                         = invoice') as (row & Hrow & Hrow_readable & Hrecompute).
        { simpl. fold f. rewrite lookup_alter. case_decide as Hk.
          - rewrite Hk, Hinv. exists (f invoice). split; [done|]. rewrite Hf.
            split; [done|]. apply recompute_totals_idempotent_aux.
          - rewrite Hinv. by exists invoice. }
        rewrite (invoice_detail_found _ _ _ Hrow Hrow_readable). simpl.
        rewrite Hrecompute.
        f_equal. unfold Invoice_save_totals. simpl. fold f. f_equal.
        rewrite alter_alter_eq. apply alter_ext. intros x _. by destruct x.
      * unfold document_views.invoice_detail.
        rewrite (get_invoice_unreadable _ _ _ Hinv Hreadable). simpl.
        by rewrite (get_invoice_unreadable _ _ _ Hinv Hreadable).
    + unfold document_views.invoice_detail, document_views.get_invoice_or_404.
      rewrite Hinv. simpl. by rewrite Hinv.
  - intros invoice Hinv Hpk Hreadable Hwide.
    rewrite (invoice_detail_found _ _ _ Hinv Hreadable). simpl. split; [done|].
    unfold document_views.invoice_detail.
    erewrite get_invoice_unreadable; [done| |exact Hwide].
    simpl.
    pose proof (recompute_totals_keeps (invoice_lines db) (tax_profiles db) invoice)
      as (Hpk' & _).
    rewrite Hpk', Hpk, lookup_alter_eq, Hinv. simpl. f_equal.
    apply (with_totals_of_recompute (invoice_lines db) (tax_profiles db) invoice).
Qed.

(** X21.  [invoice_detail] writes nothing but cached totals: every stored
    invoice keeps its key, type, status, number, customer and stored
    profile, and no other table changes. *)
Theorem invoice_detail_frame db pk :
  let db' := (document_views.invoice_detail (Bytes:=Bytes) db pk).1 in
  (∀ k, (λ inv, (Invoice.pk inv, Invoice.invoice_type inv, Invoice.status inv,
                 Invoice.invoice_no inv, Invoice.customer inv, Invoice.tax_profile inv))
          <$> invoices db' !! k
        = (λ inv, (Invoice.pk inv, Invoice.invoice_type inv, Invoice.status inv,
                   Invoice.invoice_no inv, Invoice.customer inv, Invoice.tax_profile inv))
            <$> invoices db !! k)
  ∧ document_sequences db' = document_sequences db
  ∧ tax_profiles db' = tax_profiles db
  ∧ invoice_lines db' = invoice_lines db
  ∧ payments db' = payments db
  ∧ payment_allocations db' = payment_allocations db
  ∧ receipts db' = receipts db
  ∧ audit_logs db' = audit_logs db.
Proof.
  cbn zeta. unfold document_views.invoice_detail, document_views.get_invoice_or_404.
  destruct (invoices db !! pk) as [invoice|]; [|done].
  destruct (Invoice_readable invoice); [|done]. simpl.
  split; [|done]. intros k. rewrite lookup_alter. case_decide as Hk; [|done].
  rewrite Hk. by destruct (invoices db !! k).
Qed.

Lemma str_replace_free (old new c : ascii) (s : string) :
  new ≠ old → c ∈ String.list_ascii_of_string (str_replace old new s) → c ≠ old.
Proof.
  intros Hne. induction s as [|a s IH]; simpl.
  - by intros ?%elem_of_nil.
  - intros [->|Hin]%elem_of_cons; [by case_decide | by apply IH].
Qed.

Lemma list_ascii_of_string_app (s t : string) :
  String.list_ascii_of_string (s +:+ t) = String.list_ascii_of_string s ++ String.list_ascii_of_string t.
Proof. induction s as [|a s IH]; simpl; [done | by rewrite IH]. Qed.

Lemma pdf_filename_no_slash (no : string) :
  "/"%char ∉ String.list_ascii_of_string (str_replace "/" "-" no +:+ ".pdf").
Proof.
  rewrite list_ascii_of_string_app. intros [Hin|Hin]%elem_of_app.
  - by apply str_replace_free in Hin.
  - simpl in Hin.
    repeat (apply elem_of_cons in Hin as [Hin|Hin]; [discriminate|]).
    by apply elem_of_nil in Hin.
Qed.

(** X22.  [invoice_pdf] and [receipt_pdf] answer with a file only for a
    stored document - and [invoice_pdf] only when the invoice is not a
    draft; the file holds the rendering of that document and its name is
    the document number with every slash replaced by a dash, followed by
    .pdf, so the name never contains a slash. *)
Theorem pdf_views_file db pk (content : Bytes) (filename : string) :
  (document_views.invoice_pdf invoice_pdf_bytes db pk
   = document_views.FileResponse content filename →
   ∃ invoice, invoices db !! pk = Some invoice
     ∧ Invoice.status invoice ≠ Invoice.DRAFT
     ∧ content = invoice_pdf_bytes invoice
     ∧ filename = str_replace "/" "-" (Invoice.invoice_no invoice) +:+ ".pdf"
     ∧ "/"%char ∉ String.list_ascii_of_string filename)
  ∧ (document_views.receipt_pdf receipt_pdf_bytes db pk
     = document_views.FileResponse content filename →
     ∃ receipt, receipt ∈ receipts db
       ∧ Receipt.pk receipt = Some pk
       ∧ content = receipt_pdf_bytes receipt
       ∧ filename = str_replace "/" "-" (Receipt.receipt_no receipt) +:+ ".pdf"
       ∧ "/"%char ∉ String.list_ascii_of_string filename).
Proof.
  split.
  - unfold document_views.invoice_pdf, document_views.get_invoice_or_404.
    destruct (invoices db !! pk) as [invoice|]; [|done].
    destruct (Invoice_readable invoice); [|done].
    case_decide; [done|]. intros [= <- <-]. exists invoice.
    repeat split; try done. apply pdf_filename_no_slash.
  - unfold document_views.receipt_pdf, Receipt_get.
    destruct (filter _ (receipts db)) as [|receipt rest] eqn:Hfilter; [done|].
    simpl. intros [= <- <-]. exists receipt.
    assert (receipt ∈ filter (λ r, Receipt.pk r = Some pk) (receipts db))
      as [Hpk Hin]%list_elem_of_filter by (rewrite Hfilter; left).
    repeat split; try done. apply pdf_filename_no_slash.
Qed.

(** X23.  Posting to [invoice_issue] again after a request that was
    answered with the redirect is the same as posting once: as long as the
    stored invoice can be read back, the second request issues nothing,
    draws no number, leaves the database as the first left it and answers
    with the same redirect and the same message. *)
Theorem invoice_issue_idempotent db (user user' : option nat) pk (db1 : DB)
    (message : string) :
  db_wf db →
  document_views.invoice_issue (Bytes:=Bytes) db user pk
  = (db1, document_views.RedirectSuccess "billing:invoice_detail" (Some pk) message) →
  (∀ stored, invoices db1 !! pk = Some stored → Invoice_readable stored = true) →
  document_views.invoice_issue (Bytes:=Bytes) db1 user' pk
  = (db1, document_views.RedirectSuccess "billing:invoice_detail" (Some pk) message).
Proof.
  intros [Hwf _]. unfold document_views.invoice_issue at 1.
  destruct (document_views.get_invoice_or_404 db pk) as [response|invoice] eqn:Hget.
  { by apply get_invoice_inl in Hget as [-> | ->]. }
  apply get_invoice_inr in Hget as [Hinv Hreadable].
  pose proof (Hwf _ _ Hinv) as Hpk.
  destruct (services.issue_invoice db invoice user) as [db' [issued|e]] eqn:Hcall;
    [|done].
  intros [= -> <-] Hstored.
  assert (invoices db1 !! pk = Some issued ∧ Invoice.status issued ≠ Invoice.DRAFT)
    as [Hissued Hst].
  { destruct (decide (Invoice.status invoice = Invoice.DRAFT)) as [Hdraft|Hother].
    - destruct (issue_invoice_draft_returned _ _ _ _ _ Hdraft Hcall) as (Heq & _ & ->).
      cbn zeta in Heq. split; [|by rewrite Heq].
      simpl. replace pk with (Invoice.pk issued); [apply lookup_insert_eq|].
      rewrite Heq. simpl.
      match goal with |- context [Invoice.recompute_totals ?l ?p ?i] =>
        pose proof (recompute_totals_keeps l p i) as (-> & _) end.
      by rewrite assign_number_pk.
    - rewrite (issue_invoice_not_draft _ _ _ Hother) in Hcall.
      by injection Hcall as <- <-. }
  unfold document_views.invoice_issue.
  rewrite (get_invoice_found _ _ _ Hissued (Hstored _ Hissued)).
  by rewrite (issue_invoice_not_draft _ _ _ Hst).
Qed.



End views_of_documents.

Lemma pdf_views_file_witness :
  ∃ invoice, invoices issued_db !! 1%nat = Some invoice
    ∧ Invoice.status invoice ≠ Invoice.DRAFT
    ∧ "SAMDA-000001.pdf" = str_replace "/" "-" (Invoice.invoice_no invoice) +:+ ".pdf".
Proof.
  destruct (pdf_views_file Invoice.invoice_no Receipt.receipt_no issued_db 1
              "SAMDA/000001" "SAMDA-000001.pdf") as [Hinvoice _].
  destruct (Hinvoice eq_refl) as (invoice & Hstored & Hstatus & _ & Hname & _).
  exists invoice. by repeat split.
Defined.

Lemma invoice_issue_idempotent_witness :
  document_views.invoice_issue (Bytes:=string) issued_db None 1
  = (issued_db,
     document_views.RedirectSuccess "billing:invoice_detail" (Some 1%nat)
       "Issued invoice SAMDA/000001.").
Proof.
  apply (invoice_issue_idempotent (Bytes:=string) sample_db None None 1).
  - split.
    + change (map_Forall (λ k inv, Invoice.pk inv = k) (invoices sample_db)).
      apply (bool_decide_unpack _). vm_compute. exact I.
    + change (map_Forall (λ k p, Payment.pk p = k) (payments sample_db)).
      apply (bool_decide_unpack _). vm_compute. exact I.
  - reflexivity.
  - intros stored Hstored. vm_compute in Hstored. injection Hstored as <-. reflexivity.
Defined.

Lemma invoice_detail_idempotent_witness :
  document_views.invoice_detail (Bytes:=string)
    (document_views.invoice_detail (Bytes:=string) issued_db 1).1 1
  = document_views.invoice_detail (Bytes:=string) issued_db 1.
Proof.
  apply (invoice_detail_idempotent (Bytes:=string) issued_db 1).
  intros invoice Hinvoice. vm_compute in Hinvoice. injection Hinvoice as <-.
  reflexivity.
Defined.


(** ** The seed command *)

Section seed.
Import seed_samda_defaults.
Implicit Types (objects : gmap string DocumentSequence.t).

Lemma seed_sequence_lookup objects (key prefix k : string) :
  seed_sequence objects (key, prefix) !! k
  = if decide (k = key) then Some (DocumentSequence.mk prefix (upcoming objects key))
    else objects !! k.
Proof.
  unfold seed_sequence, DocumentSequence.get_or_create, upcoming.
  destruct (objects !! key) as [seq|] eqn:Hkey.
  - case_decide as Hprefix.
    + case_decide as Hk.
      * by rewrite Hk, lookup_insert_eq.
      * by rewrite lookup_insert_ne.
    + case_decide as Hk; [|done].
      rewrite Hk, Hkey. destruct seq. simpl in *. by rewrite Hprefix.
  - simpl. rewrite decide_False by (by intros []).
    case_decide as Hk.
    + by rewrite Hk, lookup_insert_eq.
    + by rewrite lookup_insert_ne.
Qed.

Lemma seed_sequence_upcoming objects (key prefix k : string) :
  upcoming (seed_sequence objects (key, prefix)) k = upcoming objects k.
Proof.
  unfold upcoming at 1. rewrite seed_sequence_lookup.
  case_decide as Hk; [by rewrite Hk | done].
Qed.

Lemma seed_sequences_lookup objects (k : string) :
  foldl seed_sequence objects sequences !! k
  = if decide (k = "RECEIPT") then
      Some (DocumentSequence.mk "SAMDA/RCT/" (upcoming objects "RECEIPT"))
    else if decide (k = "INV_NONVAT") then
      Some (DocumentSequence.mk "SAMDA/INV/" (upcoming objects "INV_NONVAT"))
    else if decide (k = "INV_VAT") then
      Some (DocumentSequence.mk "SAMDA/VAT/" (upcoming objects "INV_VAT"))
    else objects !! k.
Proof.
  unfold sequences. cbn [foldl].
  rewrite !seed_sequence_lookup, !seed_sequence_upcoming. done.
Qed.

Lemma seed_sequences_upcoming objects (k : string) :
  upcoming (foldl seed_sequence objects sequences) k = upcoming objects k.
Proof.
  unfold sequences. cbn [foldl]. by rewrite !seed_sequence_upcoming.
Qed.

Lemma seed_sequences_idempotent objects :
  foldl seed_sequence (foldl seed_sequence objects sequences) sequences
  = foldl seed_sequence objects sequences.
Proof.
  apply map_eq. intros k.
  rewrite (seed_sequences_lookup (foldl seed_sequence objects sequences)).
  rewrite !seed_sequences_upcoming, (seed_sequences_lookup objects k).
  by repeat case_decide.
Qed.

Lemma activate_idempotent (tp : TaxProfile.t) : activate (activate tp) = activate tp.
Proof. done. Qed.

Lemma fresh_pk_gt (objects : list TaxProfile.t) (tp : TaxProfile.t) :
  tp ∈ objects → (TaxProfile.pk tp < fresh_pk objects)%nat.
Proof.
  unfold fresh_pk. intros Hin. apply Nat.lt_succ_r.
  induction objects as [|a objects IH]; [by apply elem_of_nil in Hin|].
  rewrite fmap_cons. cbn [foldr].
  apply elem_of_cons in Hin as [->|Hin].
  - apply Nat.le_max_l.
  - etrans; [by apply IH | apply Nat.le_max_r].
Qed.

Lemma filter_fmap_preserved {A} (P : A → Prop) `{!∀ x, Decision (P x)}
    (f : A → A) (l : list A) :
  (∀ x, P (f x) ↔ P x) → filter P (f <$> l) = f <$> filter P l.
Proof.
  intros HP. induction l as [|a l IH]; [done|].
  rewrite fmap_cons. destruct (decide (P a)) as [Ha|Ha].
  - rewrite !filter_cons_True by (done || by apply HP). by rewrite fmap_cons, IH.
  - rewrite !filter_cons_False by (done || by rewrite HP). done.
Qed.

Lemma seed_tax_profile_idempotent (objects objects' : list TaxProfile.t) :
  seed_tax_profile objects = Some objects' →
  seed_tax_profile objects' = Some objects'.
Proof.
  unfold seed_tax_profile.
  destruct (filter _ objects) as [|tp [|tp' rest]] eqn:Hfilter; [| |done].
  - intros [= <-]. rewrite filter_app, Hfilter.
    rewrite filter_cons_True by done. simpl. f_equal.
    rewrite fmap_app. simpl. rewrite decide_True by done. f_equal.
    rewrite <-(list_fmap_id objects) at 2. apply list_fmap_ext.
    intros i row Hrow. rewrite decide_False; [done|].
    apply list_elem_of_lookup_2, fresh_pk_gt in Hrow. lia.
  - intros [= <-].
    rewrite filter_fmap_preserved by (intros row; by case_decide).
    rewrite Hfilter. simpl. f_equal. rewrite decide_True by done. simpl.
    rewrite <-list_fmap_compose. apply list_fmap_ext. intros i row _. simpl.
    by repeat case_decide.
Qed.

Lemma seed_tax_profile_result (objects objects' : list TaxProfile.t) :
  seed_tax_profile objects = Some objects' →
  ∃ tp, filter (λ tp, TaxProfile.effective_from tp = date 2026 1 1) objects' = [tp]
        ∧ TaxProfile.is_active tp = true.
Proof.
  unfold seed_tax_profile.
  destruct (filter _ objects) as [|tp [|tp' rest]] eqn:Hfilter; [| |done].
  - intros [= <-]. rewrite filter_app, Hfilter.
    rewrite filter_cons_True by done. by eexists.
  - intros [= <-].
    rewrite filter_fmap_preserved by (intros row; by case_decide).
    rewrite Hfilter. simpl. rewrite decide_True by done. by eexists.
Qed.
End seed.

(** X25.  The seed command never resets or advances a counter: after it,
    every key hands out the integer it would have handed out before.  The
    three document categories carry their seeded prefixes, counters under
    other keys are untouched, and so are invoices, lines, payments,
    allocations, receipts and the audit log. *)
Theorem seed_keeps_counters (db db' : DB) :
  seed_samda_defaults.handle db = Some db' →
  (∀ key, upcoming (document_sequences db') key = upcoming (document_sequences db) key)
  ∧ prefix_of (document_sequences db') "INV_VAT" = "SAMDA/VAT/"
  ∧ prefix_of (document_sequences db') "INV_NONVAT" = "SAMDA/INV/"
  ∧ prefix_of (document_sequences db') "RECEIPT" = "SAMDA/RCT/"
  ∧ (∀ key, key ≠ "INV_VAT" → key ≠ "INV_NONVAT" → key ≠ "RECEIPT" →
            document_sequences db' !! key = document_sequences db !! key)
  ∧ (DocumentSequence.next (document_sequences db') "INV_VAT").2
    = "SAMDA/VAT/"
      +:+ DocumentSequence.format_06d (upcoming (document_sequences db) "INV_VAT")
  ∧ invoices db' = invoices db
  ∧ invoice_lines db' = invoice_lines db
  ∧ payments db' = payments db
  ∧ payment_allocations db' = payment_allocations db
  ∧ receipts db' = receipts db
  ∧ audit_logs db' = audit_logs db.
Proof.
  unfold seed_samda_defaults.handle.
  destruct (seed_samda_defaults.seed_tax_profile _) as [profiles|]; [|done].
  remember (foldl seed_samda_defaults.seed_sequence (document_sequences db)
              seed_samda_defaults.sequences) as seeded eqn:Hseeded.
  intros [= <-]. simpl.
  assert (∀ key, seeded !! key
                 = if decide (key = "RECEIPT") then
                     Some (DocumentSequence.mk "SAMDA/RCT/"
                             (upcoming (document_sequences db) "RECEIPT"))
                   else if decide (key = "INV_NONVAT") then
                     Some (DocumentSequence.mk "SAMDA/INV/"
                             (upcoming (document_sequences db) "INV_NONVAT"))
                   else if decide (key = "INV_VAT") then
                     Some (DocumentSequence.mk "SAMDA/VAT/"
                             (upcoming (document_sequences db) "INV_VAT"))
                   else document_sequences db !! key) as Hlookup.
  { intros key. rewrite Hseeded. apply seed_sequences_lookup. }
  assert (∀ key, upcoming seeded key = upcoming (document_sequences db) key) as Hupcoming.
  { intros key. rewrite Hseeded. apply seed_sequences_upcoming. }
  clear Hseeded.
  repeat split; try done.
  - unfold prefix_of. by rewrite Hlookup.
  - unfold prefix_of. by rewrite Hlookup.
  - unfold prefix_of. by rewrite Hlookup.
  - intros key H1 H2 H3. rewrite Hlookup. by rewrite !decide_False.
  - rewrite next_eq. cbn [snd]. rewrite Hupcoming.
    unfold prefix_of. by rewrite Hlookup.
Qed.

Lemma seed_keeps_counters_witness :
  upcoming (document_sequences receipted_db) "RECEIPT" = 2%N
  ∧ ∃ db', seed_samda_defaults.handle receipted_db = Some db'
      ∧ upcoming (document_sequences db') "RECEIPT" = 2%N
      ∧ prefix_of (document_sequences db') "RECEIPT" = "SAMDA/RCT/".
Proof.
  split; [reflexivity|].
  eexists. split; [reflexivity|].
  match goal with |- upcoming (document_sequences ?d) _ = _ ∧ _ =>
    destruct (seed_keeps_counters receipted_db d eq_refl)
      as (Hup & _ & _ & Hprefix & _) end.
  split; [by rewrite Hup | exact Hprefix].
Defined.

(** X26.  The seed command is idempotent: running it on the database it
    produced succeeds and changes nothing. *)
Theorem seed_idempotent (db db' : DB) :
  seed_samda_defaults.handle db = Some db' →
  seed_samda_defaults.handle db' = Some db'.
Proof.
  unfold seed_samda_defaults.handle.
  destruct (seed_samda_defaults.seed_tax_profile (tax_profiles db))
    as [profiles|] eqn:Hprofiles; [|done].
  pose proof (seed_sequences_idempotent (document_sequences db)) as Hsequences.
  remember (foldl seed_samda_defaults.seed_sequence (document_sequences db)
              seed_samda_defaults.sequences) as seeded eqn:Hseeded.
  intros [= <-]. cbn [tax_profiles document_sequences].
  rewrite (seed_tax_profile_idempotent _ _ Hprofiles).
  by rewrite Hsequences.
Qed.

Lemma seed_idempotent_witness :
  ∃ db', seed_samda_defaults.handle sample_db = Some db'
         ∧ seed_samda_defaults.handle db' = Some db'.
Proof.
  eexists. split; [reflexivity|].
  apply (seed_idempotent sample_db). reflexivity.
Defined.

(** X27.  The seed command fails exactly when two or more tax profiles
    carry the effective date 2026-01-01.  When it succeeds, exactly one
    profile carries that date afterwards and it is active, so some profile
    is active for [recompute_totals] to find; no profile row is removed and
    no key, date or rate of a row changes. *)
Theorem seed_tax_profile_effects (db : DB) :
  (seed_samda_defaults.handle db = None
   ↔ (2 ≤ length (filter (λ tp, TaxProfile.effective_from tp
                                = seed_samda_defaults.date 2026 1 1)
                    (tax_profiles db)))%nat)
  ∧ ∀ db', seed_samda_defaults.handle db = Some db' →
      (∃ tp, filter (λ tp, TaxProfile.effective_from tp
                           = seed_samda_defaults.date 2026 1 1) (tax_profiles db')
             = [tp]
             ∧ TaxProfile.is_active tp = true)
      ∧ is_Some (TaxProfile.active (tax_profiles db'))
      ∧ ∀ i row, tax_profiles db !! i = Some row →
          ∃ row', tax_profiles db' !! i = Some row'
            ∧ TaxProfile.pk row' = TaxProfile.pk row
            ∧ TaxProfile.effective_from row' = TaxProfile.effective_from row
            ∧ TaxProfile.vat_rate row' = TaxProfile.vat_rate row
            ∧ TaxProfile.nhil_rate row' = TaxProfile.nhil_rate row
            ∧ TaxProfile.getfund_rate row' = TaxProfile.getfund_rate row.
Proof.
  unfold seed_samda_defaults.handle. split.
  - unfold seed_samda_defaults.seed_tax_profile.
    destruct (filter _ (tax_profiles db)) as [|tp [|tp' rest]]; simpl;
      split; (done || lia).
  - intros db'.
    destruct (seed_samda_defaults.seed_tax_profile (tax_profiles db))
      as [profiles|] eqn:Hprofiles; [|done].
    intros [= <-].
  cbn [document_sequences tax_profiles invoices invoice_lines payments
       payment_allocations receipts audit_logs].
    destruct (seed_tax_profile_result _ _ Hprofiles) as (tp & Hfilter & Hactive).
    split; [by exists tp|]. split.
    + apply (active_profile_some _ tp); [|done].
      assert (tp ∈ filter (λ tp, TaxProfile.effective_from tp
                                 = seed_samda_defaults.date 2026 1 1) profiles)
        as [_ Hin]%list_elem_of_filter by (rewrite Hfilter; left).
      done.
    + intros i row Hrow. unfold seed_samda_defaults.seed_tax_profile in Hprofiles.
      destruct (filter _ (tax_profiles db)) as [|tp0 [|tp' rest]]; [| |done].
      * injection Hprofiles as <-. exists row.
        by rewrite lookup_app_l by by eapply lookup_lt_Some.
      * injection Hprofiles as <-. rewrite list_lookup_fmap, Hrow. simpl.
        eexists. split; [done|]. by case_decide.
Qed.

Lemma seed_tax_profile_effects_witness :
  ∃ db', seed_samda_defaults.handle sample_db = Some db'
         ∧ is_Some (TaxProfile.active (tax_profiles db')).
Proof.
  destruct (seed_tax_profile_effects sample_db) as [_ Heffects].
  eexists. split; [reflexivity|].
  apply Heffects. reflexivity.
Defined.
